(** * VoiceToTextDemo: the push-to-talk dictation state machine

    A shallow embedding of [src/voice_to_text.py] (class
    [DictationTranscriber]) and the properties of its recording session.

    Modelling conventions.
    - The object's attributes are the record [transcriber]; the capture
      threads it spawns and the chronological log of its calls to the outside
      world (prints, cue playback, device, engine, keyboard) complete the
      [world].
    - Python exceptions are the [Raise] completion of a small state-and-error
      monad; [try ... except] is [try_except].
    - The outside world is an oracle record [env]: each field says how one
      external call answers.
    - Samples are exact rationals.  An int16 converted to float32 and divided
      by 32768.0 (a power of two) is computed without rounding, so the
      rationals are the float32 values; the float32 mean and the literal
      0.001 are idealised as the exact mean and the exact 1/1000. *)

From Stdlib Require Import List ZArith QArith Qround Qabs Bool Lia Lqa.
From Stdlib Require Import RelationClasses.
From Stdlib Require Import String Ascii.
From Stdlib Require Import Strings.Byte.
Import ListNotations.

Local Open Scope Z_scope.

(** ** Configuration (lines 16-21) *)

Definition CHUNK : Z := 1024.
Definition RATE : Z := 16000.

Inductive key := F9 | OtherKey.
Definition HOTKEY : key := F9.

Definition key_eqb (a b : key) : bool :=
  match a, b with
  | F9, F9 | OtherKey, OtherKey => true
  | _, _ => false
  end.

(** ** Audio data *)

Definition bytes := list byte.

Module Numpy.

(** One little-endian two's-complement int16 from two bytes. *)
Definition int16_of_le (lo hi : byte) : Z :=
  let u := Z.of_N (Byte.to_N lo) + 256 * Z.of_N (Byte.to_N hi) in
  if u <? 32768 then u else u - 65536.

(** [np.frombuffer(data, dtype=np.int16)]: [None] is the [ValueError]
    numpy raises when the buffer size is not a multiple of 2. *)
Fixpoint frombuffer (data : bytes) : option (list Z) :=
  match data with
  | [] => Some []
  | [_] => None
  | lo :: hi :: rest =>
      match frombuffer rest with
      | Some xs => Some (int16_of_le lo hi :: xs)
      | None => None
      end
  end.

(** [.astype(np.float32) / 32768.0] *)
Definition to_float (s : Z) : Q := (inject_Z s / 32768)%Q.
Definition normalize (xs : list Z) : list Q := map to_float xs.

Definition sum (xs : list Q) : Q := fold_left Qplus xs 0%Q.

(** [a.mean()]: [None] is the [nan] numpy returns for an empty array. *)
Definition mean (xs : list Q) : option Q :=
  match xs with
  | [] => None
  | _ => Some (sum xs / inject_Z (Z.of_nat (List.length xs)))%Q
  end.

(** [np.abs(a)] *)
Definition abs (xs : list Q) : list Q := map Qabs xs.

(** [v < c] on a possibly-nan value: a comparison with nan is false. *)
Definition lt (v : option Q) (c : Q) : bool :=
  match v with
  | Some x => negb (Qle_bool c x)
  | None => false
  end.

End Numpy.

(** [b''.join(frames)] *)
Definition join_bytes (frames : list bytes) : bytes := List.concat frames.

Definition SILENCE_THRESHOLD : Q := (1 # 1000)%Q.

(** ** Text *)

Module Str.

(** [str.isspace] on the characters a [string] of this development can
    hold (code points below 256). *)
Definition isspace (c : ascii) : bool :=
  let n := nat_of_ascii c in
  ((9 <=? n) && (n <=? 13) || (28 <=? n) && (n <=? 32)
   || (n =? 133) || (n =? 160))%nat.

Fixpoint lstrip (s : string) : string :=
  match s with
  | EmptyString => EmptyString
  | String c r => if isspace c then lstrip r else s
  end.

Fixpoint rstrip (s : string) : string :=
  match s with
  | EmptyString => EmptyString
  | String c r =>
      match rstrip r with
      | EmptyString => if isspace c then EmptyString else String c EmptyString
      | r' => String c r'
      end
  end.

(** [s.strip()] *)
Definition strip (s : string) : string := rstrip (lstrip s).

(** [sep.join(parts)] *)
Definition join (sep : string) (parts : list string) : string :=
  String.concat sep parts.

(** Truthiness of a string: [if text:] *)
Definition nonempty (s : string) : bool :=
  match s with EmptyString => false | _ => true end.

Fixpoint all_space (s : string) : bool :=
  match s with
  | EmptyString => true
  | String c r => isspace c && all_space r
  end.

End Str.

(** [" ".join([segment.text.strip() for segment in segments])] *)
Definition join_segments (segments : list string) : string :=
  Str.join " " (map Str.strip segments).


(** [int(x)] on a float: truncation toward zero. *)
Definition py_int (x : Q) : Z := Z.quot (Qnum x) (Zpos (Qden x)).

(** [warmup_chunks = int(RATE / CHUNK * 1.0)] (line 72) *)
Definition warmup_chunks : nat :=
  Z.to_nat (py_int (inject_Z RATE / inject_Z CHUNK * 1)%Q).

(** [max_consecutive_errors = 5] (line 95) *)
Definition max_consecutive_errors : nat := 5.

(** ** The outside world *)

(** What [self.stream.read(CHUNK, exception_on_overflow=False)] does: it
    returns a chunk, raises [OSError] (the transient fault the capture loop
    counts) or raises some other exception. *)
Inductive read_result :=
| ReadOk (data : bytes)
| ReadOSError
| ReadException.

(** Python exceptions; both are instances of [Exception]. *)
Inductive exn := OSError | OtherError.

Inductive message :=
| MsgBeepWake | MsgBeepReady | MsgRecordingNow | MsgOpenError
| MsgStreamError | MsgUnexpected
| MsgStopped | MsgRecordingErrors | MsgNoAudio | MsgTooQuiet
| MsgProcessing | MsgTranscribed (text : string) | MsgNoSpeech
| MsgTranscriptionError
| MsgTyped | MsgTypeError | MsgTextWas (text : string)
| MsgHotkeyError.

(** Calls to the outside world, logged when they are made (whether they
    then return or raise). *)
Inductive event :=
| Print (m : message)
| Paplay
| Sleep (ms : nat)
| PyAudioInit
| StreamOpen
| StreamRead (r : read_result)
| StreamStop
| StreamClose
| PaTerminate
| ThreadStart
| Transcribe (audio : list Q)
| TypeText (text : string).

(** How the collaborators answer during one hotkey handler. *)
Record env := {
  pyaudio_ok : bool;                       (* pyaudio.PyAudio() returns *)
  open_ok : bool;                          (* self.p.open(...) returns *)
  paplay_ok : nat -> bool;                 (* the n-th subprocess.run returns *)
  warmup_read : nat -> read_result;        (* the n-th warm-up read *)
  pause : list (nat * read_result);        (* what the capture threads do
                                              during time.sleep(0.1) *)
  close_ok : bool;                         (* stop_stream()/close() return *)
  transcribe : list Q -> option (list string);  (* None: the engine raises *)
  type_ok : string -> bool                 (* keyboard_controller.type returns *)
}.

(** ** The object and its threads *)

Inductive stream_state := StreamIsOpen | StreamIsClosed.
Inductive pa_state := PaLive | PaTerminated.

(** The attributes set in [__init__] (lines 29-34). *)
Record transcriber := {
  is_recording : bool;
  audio_frames : list bytes;
  stream : option stream_state;
  p : option pa_state;
  recording_error : bool
}.

(** Where a capture thread stands in [_record]: about to test the [while]
    condition, blocked inside [stream.read], or returned. *)
Inductive pc := AtWhile | InRead | Exited.

Record thread := {
  at_pc : pc;
  consecutive_errors : nat
}.

Record world := {
  self : transcriber;
  threads : list thread;
  log : list event
}.

Definition init_transcriber : transcriber :=
  {| is_recording := false; audio_frames := []; stream := None; p := None;
     recording_error := false |}.

Definition init_world : world :=
  {| self := init_transcriber; threads := []; log := [] |}.

Definition set_is_recording (b : bool) (s : transcriber) : transcriber :=
  {| is_recording := b; audio_frames := audio_frames s; stream := stream s;
     p := p s; recording_error := recording_error s |}.
Definition set_audio_frames (f : list bytes) (s : transcriber) : transcriber :=
  {| is_recording := is_recording s; audio_frames := f; stream := stream s;
     p := p s; recording_error := recording_error s |}.
Definition set_stream (x : option stream_state) (s : transcriber) : transcriber :=
  {| is_recording := is_recording s; audio_frames := audio_frames s; stream := x;
     p := p s; recording_error := recording_error s |}.
Definition set_p (x : option pa_state) (s : transcriber) : transcriber :=
  {| is_recording := is_recording s; audio_frames := audio_frames s;
     stream := stream s; p := x; recording_error := recording_error s |}.
Definition set_recording_error (b : bool) (s : transcriber) : transcriber :=
  {| is_recording := is_recording s; audio_frames := audio_frames s;
     stream := stream s; p := p s; recording_error := b |}.

Definition with_self (f : transcriber -> transcriber) (w : world) : world :=
  {| self := f (self w); threads := threads w; log := log w |}.
Definition with_threads (f : list thread -> list thread) (w : world) : world :=
  {| self := self w; threads := f (threads w); log := log w |}.
Definition with_log (e : event) (w : world) : world :=
  {| self := self w; threads := threads w; log := log w ++ [e] |}.

(** ** A state-and-exception monad for the methods *)

Inductive completion (A : Type) :=
| Ret (a : A)
| Raise (e : exn).
Arguments Ret {A} a.
Arguments Raise {A} e.

Definition M (A : Type) : Type := world -> completion A * world.

Definition ret {A} (a : A) : M A := fun w => (Ret a, w).
Definition raise {A} (e : exn) : M A := fun w => (Raise e, w).
Definition bind {A B} (c : M A) (k : A -> M B) : M B :=
  fun w => match c w with
           | (Ret a, w') => k a w'
           | (Raise e, w') => (Raise e, w')
           end.

(** [try: body except Exception: handler] (also the bare [except:]). *)
Definition try_except {A} (body : M A) (handler : exn -> M A) : M A :=
  fun w => match body w with
           | (Ret a, w') => (Ret a, w')
           | (Raise e, w') => handler e w'
           end.

Declare Scope monad_scope.
Delimit Scope monad_scope with monad.
Notation "x <- c ;; k" := (bind c (fun x => k))
  (at level 61, c at next level, right associativity) : monad_scope.
Notation "c ;; k" := (bind c (fun _ => k))
  (at level 61, right associativity) : monad_scope.
Local Open Scope monad_scope.

Definition get_self : M transcriber := fun w => (Ret (self w), w).
Definition modify (f : transcriber -> transcriber) : M unit :=
  fun w => (Ret tt, with_self f w).
Definition emit (e : event) : M unit := fun w => (Ret tt, with_log e w).

(** [for i in range(n): body] *)
Fixpoint for_range (from n : nat) (body : nat -> M unit) : M unit :=
  match n with
  | O => ret tt
  | S n' => body from ;; for_range (S from) n' body
  end.

(** ** The capture loop [_record] (lines 92-114) *)

Definition new_thread : thread := {| at_pc := AtWhile; consecutive_errors := 0 |}.

Fixpoint set_nth {A} (i : nat) (x : A) (l : list A) : list A :=
  match l, i with
  | [], _ => []
  | _ :: r, O => x :: r
  | y :: r, S i' => y :: set_nth i' x r
  end.

(** One step of one capture thread on the shared object.  At [AtWhile] the
    thread evaluates [while self.is_recording]; at [InRead] its blocking read
    answers [r] and the thread runs the rest of the iteration. *)
Definition _record_step (r : read_result) (t : thread) (s : transcriber)
  : thread * transcriber * list event :=
  match at_pc t with
  | AtWhile =>
      if is_recording s
      then ({| at_pc := InRead; consecutive_errors := consecutive_errors t |}, s, [])
      else ({| at_pc := Exited; consecutive_errors := consecutive_errors t |}, s, [])
  | InRead =>
      match r with
      | ReadOk data =>
          ({| at_pc := AtWhile; consecutive_errors := 0 |},
           set_audio_frames (audio_frames s ++ [data]) s,
           [StreamRead r])
      | ReadOSError =>
          let n := S (consecutive_errors t) in
          if (max_consecutive_errors <=? n)%nat
          then ({| at_pc := Exited; consecutive_errors := n |},
                set_is_recording false (set_recording_error true s),
                [StreamRead r; Print MsgStreamError])
          else ({| at_pc := AtWhile; consecutive_errors := n |}, s,
                [StreamRead r; Sleep 10])
      | ReadException =>
          ({| at_pc := Exited; consecutive_errors := consecutive_errors t |},
           set_is_recording false (set_recording_error true s),
           [StreamRead r; Print MsgUnexpected])
      end
  | Exited => (t, s, [])
  end.

(** Thread [i] of the pool takes one step. *)
Definition capture (i : nat) (r : read_result) (w : world) : world :=
  match nth_error (threads w) i with
  | None => w
  | Some t =>
      let '(t', s', out) := _record_step r t (self w) in
      {| self := s'; threads := set_nth i t' (threads w); log := log w ++ out |}
  end.

Definition run_threads (sched : list (nat * read_result)) (w : world) : world :=
  fold_left (fun w a => capture (fst a) (snd a) w) sched w.

(** [time.sleep(ms/1000)] *)
Definition time_sleep (ms : nat) : M unit := emit (Sleep ms).

(** The scheduler runs the capture threads while the caller sleeps. *)
Definition yield (sched : list (nat * read_result)) : M unit :=
  fun w => (Ret tt, run_threads sched w).

(** ** External calls *)

Definition pyaudio_PyAudio (e : env) : M unit :=
  emit PyAudioInit ;;
  if pyaudio_ok e then modify (set_p (Some PaLive)) else raise OtherError.

Definition p_open (e : env) : M unit :=
  emit StreamOpen ;;
  if open_ok e then modify (set_stream (Some StreamIsOpen)) else raise OSError.

Definition paplay (e : env) (n : nat) : M unit :=
  emit Paplay ;;
  if paplay_ok e n then ret tt else raise OSError.

Definition p_terminate : M unit :=
  emit PaTerminate ;; modify (set_p (Some PaTerminated)).

Definition stream_stop_close (e : env) : M unit :=
  emit StreamStop ;;
  if close_ok e
  then emit StreamClose ;; modify (set_stream (Some StreamIsClosed))
  else raise OSError.

Definition stream_read_discard (e : env) (i : nat) : M unit :=
  emit (StreamRead (warmup_read e i)) ;;
  match warmup_read e i with
  | ReadOk _ => ret tt
  | ReadOSError => raise OSError
  | ReadException => raise OtherError
  end.

Definition thread_start : M unit :=
  emit ThreadStart ;;
  fun w => (Ret tt, with_threads (fun l => l ++ [new_thread]) w).

Definition model_transcribe (e : env) (audio : list Q) : M (list string) :=
  emit (Transcribe audio) ;;
  match transcribe e audio with
  | Some segments => ret segments
  | None => raise OtherError
  end.

Definition keyboard_type (e : env) (text : string) : M unit :=
  emit (TypeText text) ;;
  if type_ok e text then ret tt else raise OtherError.

(** ** [start_recording] (lines 36-90) *)

(** Lines 71-77: the warm-up loop, each read under its own bare [except]. *)
Definition discard_warmup (e : env) : M unit :=
  for_range 0 warmup_chunks
    (fun i => try_except (stream_read_discard e i) (fun _ => ret tt)).

(** Lines 45-90: initialise PortAudio, then the [try] block and its handler. *)
Definition open_and_prime (e : env) : M unit :=
  pyaudio_PyAudio e ;;
  try_except
    (p_open e ;;
     emit (Print MsgBeepWake) ;;
     paplay e 0 ;;
     time_sleep 500 ;;
     emit (Print MsgBeepReady) ;;
     paplay e 1 ;;
     discard_warmup e ;;
     emit (Print MsgRecordingNow) ;;
     thread_start)
    (fun _ =>
       emit (Print MsgOpenError) ;;
       modify (set_is_recording false) ;;
       s <- get_self ;;
       match p s with Some _ => p_terminate | None => ret tt end).

Definition start_recording (e : env) : M unit :=
  s <- get_self ;;
  if is_recording s then ret tt else
  modify (set_is_recording true) ;;
  modify (set_audio_frames []) ;;
  modify (set_recording_error false) ;;
  open_and_prime e.

(** ** [type_text] (lines 188-197) *)

Definition type_text (e : env) (text : string) : M unit :=
  try_except
    (time_sleep 100 ;;
     keyboard_type e text ;;
     emit (Print MsgTyped))
    (fun _ =>
       emit (Print MsgTypeError) ;;
       emit (Print (MsgTextWas text))).

(** ** [stop_recording] (lines 116-186) *)

(** Lines 151-186: the [try] block and its handler. *)
Definition transcribe_frames (e : env) : M unit :=
  try_except
    (s <- get_self ;;
     let audio_data := join_bytes (audio_frames s) in
     match Numpy.frombuffer audio_data with
     | None => raise OtherError
     | Some samples =>
         let audio_np := Numpy.normalize samples in
         let volume := Numpy.mean (Numpy.abs audio_np) in
         if Numpy.lt volume SILENCE_THRESHOLD
         then emit (Print MsgTooQuiet)
         else
           emit (Print MsgProcessing) ;;
           segments <- model_transcribe e audio_np ;;
           let text := join_segments segments in
           if Str.nonempty text
           then emit (Print (MsgTranscribed text)) ;; type_text e text
           else emit (Print MsgNoSpeech)
     end)
    (fun _ => emit (Print MsgTranscriptionError)).

(** Lines 128-137: close the stream under a bare [except], then terminate
    PortAudio. *)
Definition close_device (e : env) : M unit :=
  try_except
    (s <- get_self ;;
     match stream s with Some _ => stream_stop_close e | None => ret tt end)
    (fun _ => ret tt) ;;
  s <- get_self ;;
  match p s with Some _ => p_terminate | None => ret tt end.

(** Lines 139-186: the two checks, then the transcription. *)
Definition check_and_transcribe (e : env) : M unit :=
  s <- get_self ;;
  if recording_error s
  then emit (Print MsgRecordingErrors) ;; modify (set_audio_frames [])
  else
    match audio_frames s with
    | [] => emit (Print MsgNoAudio)
    | _ :: _ => transcribe_frames e
    end.

(** Lines 126-186: what follows the pause. *)
Definition finish_recording (e : env) : M unit :=
  emit (Print MsgStopped) ;;
  close_device e ;;
  check_and_transcribe e.

Definition stop_recording (e : env) : M unit :=
  s <- get_self ;;
  if negb (is_recording s) then ret tt else
  modify (set_is_recording false) ;;
  time_sleep 100 ;; yield (pause e) ;;
  finish_recording e.

(** ** [on_hotkey] (lines 199-208) *)

Definition on_hotkey (e : env) (k : key) : M unit :=
  try_except
    (if key_eqb k HOTKEY
     then
       s <- get_self ;;
       if negb (is_recording s) then start_recording e else stop_recording e
     else ret tt)
    (fun _ => emit (Print MsgHotkeyError)).

(** ** The running program: hotkey presses and capture-thread steps *)

(** The listener thread runs one handler at a time, to completion; the
    capture threads take their steps between two presses and, inside
    [stop_recording], during its pause. *)
Inductive action :=
| Press (e : env) (k : key)
| Capture (i : nat) (r : read_result).

Definition step (a : action) (w : world) : world :=
  match a with
  | Press e k => snd (on_hotkey e k w)
  | Capture i r => capture i r w
  end.

Definition run (acts : list action) (w : world) : world :=
  fold_left (fun w a => step a w) acts w.

(** ** Vocabulary for the log and for computations *)

Definition warmup_events (e : env) (from n : nat) : list event :=
  map (fun i => StreamRead (warmup_read e i)) (seq from n).

(** The log of a start-event on which every call returns. *)
Definition start_events (e : env) : list event :=
  [PyAudioInit; StreamOpen; Print MsgBeepWake; Paplay; Sleep 500;
   Print MsgBeepReady; Paplay]
  ++ warmup_events e 0 warmup_chunks
  ++ [Print MsgRecordingNow; ThreadStart].

(** The events a handler added to the log. *)
Definition new_events (w w' : world) : list event :=
  skipn (List.length (log w)) (log w').

(** The waveforms handed to the transcription engine. *)
Fixpoint engine_calls (l : list event) : list (list Q) :=
  match l with
  | [] => []
  | Transcribe a :: r => a :: engine_calls r
  | _ :: r => engine_calls r
  end.

(** The texts handed to the text injector. *)
Fixpoint injections (l : list event) : list string :=
  match l with
  | [] => []
  | TypeText t :: r => t :: injections r
  | _ :: r => injections r
  end.

Fixpoint cue_count (l : list event) : nat :=
  match l with
  | [] => 0
  | Paplay :: r => S (cue_count r)
  | _ :: r => cue_count r
  end.

Fixpoint read_count (l : list event) : nat :=
  match l with
  | [] => 0
  | StreamRead _ :: r => S (read_count r)
  | _ :: r => read_count r
  end.

(** The events that precede the [n]-th cue (all of them when there are fewer
    than [n] cues). *)
Fixpoint before_cue (n : nat) (l : list event) : list event :=
  match l with
  | [] => []
  | Paplay :: r =>
      match n with
      | O | S O => []
      | S n' => Paplay :: before_cue n' r
      end
  | x :: r => x :: before_cue n r
  end.

(** The world in which the controller wakes from the pause of
    [stop_recording]: the flag is cleared and the capture threads have run
    their share of the schedule. *)
Definition after_pause (e : env) (w : world) : world :=
  run_threads (pause e)
    (with_log (Sleep 100) (with_self (set_is_recording false) w)).

(** What closing the device logs (lines 128-137). *)
Definition close_events (e : env) (s : transcriber) : list event :=
  match stream s with
  | Some _ => if close_ok e then [StreamStop; StreamClose] else [StreamStop]
  | None => []
  end ++
  match p s with Some _ => [PaTerminate] | None => [] end.

(** The object once the device is closed. *)
Definition closed (e : env) (s : transcriber) : transcriber :=
  {| is_recording := is_recording s;
     audio_frames := audio_frames s;
     stream := match stream s with
               | Some st => if close_ok e then Some StreamIsClosed else Some st
               | None => None
               end;
     p := match p s with Some _ => Some PaTerminated | None => None end;
     recording_error := recording_error s |}.

(** A computation relates every world to the world it leaves, whether it
    returns or raises. *)
Definition preserves {A} (R : world -> world -> Prop) (c : M A) : Prop :=
  forall w, R w (snd (c w)).

(** A computation never raises. *)
Definition returns {A} (c : M A) : Prop :=
  forall w, exists a, fst (c w) = Ret a.


(** Two worlds agree on an observation [f]. *)
Definition same {X} (f : world -> X) (w w' : world) : Prop := f w' = f w.

Definition flag (w : world) : bool := is_recording (self w).
Definition buffer (w : world) : list bytes * bool :=
  (audio_frames (self w), recording_error (self w)).
Definition calls (w : world) : list (list Q) * list string :=
  (engine_calls (log w), injections (log w)).

(** [t] is [s] trimmed of surrounding whitespace. *)
Definition first_char (s : string) : option ascii :=
  match s with EmptyString => None | String c _ => Some c end.

Fixpoint last_char (s : string) : option ascii :=
  match s with
  | EmptyString => None
  | String c EmptyString => Some c
  | String _ r => last_char r
  end.

Definition not_space (o : option ascii) : Prop :=
  forall c, o = Some c -> Str.isspace c = false.

Definition trimmed_of (s t : string) : Prop :=
  exists pre post,
    s = (pre ++ t ++ post)%string /\
    Str.all_space pre = true /\ Str.all_space post = true /\
    not_space (first_char t) /\ not_space (last_char t).

Definition int16_range (s : Z) : Prop := -32768 <= s <= 32767.

(** The events of [type_text]. *)
Definition type_events (e : env) (text : string) : list event :=
  [Sleep 100; TypeText text] ++
  (if type_ok e text then [Print MsgTyped]
   else [Print MsgTypeError; Print (MsgTextWas text)]).

(** The events of the transcription once the engine has answered. *)
Definition text_events (e : env) (segments : list string) : list event :=
  let text := join_segments segments in
  if Str.nonempty text
  then Print (MsgTranscribed text) :: type_events e text
  else [Print MsgNoSpeech].

(** The cue protocol in the specification's words: two cues, the first
    before any warm-up read, the second once the [warmup_chunks] warm-up reads
    are done. *)
Definition cues_as_specified (l : list event) : Prop :=
  cue_count l = 2%nat /\
  read_count (before_cue 1 l) = 0%nat /\
  read_count (before_cue 2 l) = warmup_chunks.



(** ** Sample inputs *)

(** Two samples of amplitude 0.5, and two of amplitude 1/32768. *)
Definition loud : bytes := [x00; x40; x00; xc0]%byte.
Definition faint : bytes := [x01; x00; xff; xff]%byte.

(** A room in which every call returns: the engine answers [segments] and
    the capture threads run [sched] during the pause. *)
Definition nominal (segments : list string) (sched : list (nat * read_result)) : env :=
  {| pyaudio_ok := true; open_ok := true; paplay_ok := fun _ => true;
     warmup_read := fun _ => ReadOSError; pause := sched; close_ok := true;
     transcribe := fun _ => Some segments; type_ok := fun _ => true |}.

(** The same room with a device that cannot be opened. *)
Definition no_device : env :=
  {| pyaudio_ok := true; open_ok := false; paplay_ok := fun _ => true;
     warmup_read := fun _ => ReadOSError; pause := []; close_ok := true;
     transcribe := fun _ => None; type_ok := fun _ => true |}.

(** A session that is recording, with [frames] buffered so far. *)
Definition recording (frames : list bytes) (ths : list thread) : world :=
  {| self := {| is_recording := true; audio_frames := frames;
                stream := Some StreamIsOpen; p := Some PaLive;
                recording_error := false |};
     threads := ths; log := [] |}.


(** ** [start] (lines 210-239) *)

(** What [start] itself prints: the banner, and the farewell after Ctrl+C. *)
Inductive console_line := Banner | ShuttingDown.

(** The listener delivers the key presses while the capture threads run
    ([acts]); [interrupt] is the [KeyboardInterrupt] that ends
    [listener.join()], with the room in which its handler runs. *)
Definition start (acts : list action) (interrupt : option env) (w : world)
  : list console_line * (completion unit * world) :=
  let w1 := run acts w in
  match interrupt with
  | None => ([Banner], (Ret tt, w1))
  | Some e =>
      ([Banner; ShuttingDown],
       if is_recording (self w1) then stop_recording e w1 else (Ret tt, w1))
  end.

(** ** One capture loop running alone *)

(** The steps of thread [i] over the iterations whose reads answer [rs]:
    each iteration is the [while] test followed by the read. *)
Definition iterations (i : nat) (rs : list read_result)
  : list (nat * read_result) :=
  flat_map (fun r => [(i, r); (i, r)]) rs.

(** The chunks among the answers, in order. *)
Fixpoint chunks_of (rs : list read_result) : list bytes :=
  match rs with
  | [] => []
  | ReadOk data :: r => data :: chunks_of r
  | _ :: r => chunks_of r
  end.

(** The consecutive-error count after the answers [rs], starting from [n],
    when no answer ends the loop: no exception other than [OSError] and never
    [max_consecutive_errors] [OSError]s in a row. *)
Fixpoint survives (n : nat) (rs : list read_result) : option nat :=
  match rs with
  | [] => Some n
  | ReadOk _ :: r => survives 0 r
  | ReadOSError :: r =>
      if (max_consecutive_errors <=? S n)%nat then None else survives (S n) r
  | ReadException :: _ => None
  end.

(** * Properties *)

(** ** Decoding and normalising the buffer *)

Section Buffer.

Lemma int16_of_le_range lo hi : int16_range (Numpy.int16_of_le lo hi).
Proof.
  unfold int16_range, Numpy.int16_of_le.
  pose proof (Byte.to_N_bounded lo) as Hlo.
  pose proof (Byte.to_N_bounded hi) as Hhi.
  cbv zeta.
  destruct (Z.ltb_spec (Z.of_N (to_N lo) + 256 * Z.of_N (to_N hi)) 32768); lia.
Qed.

(** Induction two bytes at a time, the way [frombuffer] recurses. *)
Lemma bytes_pair_ind (P : bytes -> Prop) :
  P [] -> (forall b, P [b]) ->
  (forall lo hi rest, P rest -> P (lo :: hi :: rest)) ->
  forall data, P data.
Proof.
  intros H0 H1 H2.
  assert (H : forall data, P data /\ forall b, P (b :: data)).
  { induction data as [|b data [IH IHb]]; split; auto. }
  intro data. apply H.
Qed.

Lemma frombuffer_app a : forall b xs ys,
  Numpy.frombuffer a = Some xs -> Numpy.frombuffer b = Some ys ->
  Numpy.frombuffer (a ++ b) = Some (xs ++ ys).
Proof.
  induction a as [| c | lo hi rest IH] using bytes_pair_ind; intros b xs ys Ha Hb.
  - inversion Ha; subst. exact Hb.
  - discriminate Ha.
  - simpl in Ha |- *.
    destruct (Numpy.frombuffer rest) as [zs|] eqn:E; [|discriminate].
    inversion Ha; subst.
    rewrite (IH b zs ys eq_refl Hb). reflexivity.
Qed.

Lemma frombuffer_range data : forall xs,
  Numpy.frombuffer data = Some xs -> Forall int16_range xs.
Proof.
  induction data as [| c | lo hi rest IH] using bytes_pair_ind; intros xs H.
  - inversion H. constructor.
  - discriminate H.
  - simpl in H.
    destruct (Numpy.frombuffer rest) as [zs|] eqn:E; [|discriminate].
    inversion H; subst. constructor; auto using int16_of_le_range.
Qed.

Lemma frombuffer_join frames : forall parts,
  Forall2 (fun c xs => Numpy.frombuffer c = Some xs) frames parts ->
  Numpy.frombuffer (join_bytes frames) = Some (List.concat parts).
Proof.
  induction frames as [|c frames IH]; intros parts H; inversion H; subst.
  - reflexivity.
  - simpl. apply frombuffer_app; [assumption | apply IH; assumption].
Qed.

Lemma to_float_bounds s :
  int16_range s -> (-1 <= Numpy.to_float s <= 1)%Q.
Proof.
  unfold int16_range, Numpy.to_float, Qdiv, Qle. simpl. lia.
Qed.

Lemma to_float_roundtrip s : (Numpy.to_float s * 32768 == inject_Z s)%Q.
Proof.
  unfold Numpy.to_float. field.
Qed.

Lemma normalize_samples xs :
  Forall int16_range xs ->
  Forall2 (fun s v => (v == inject_Z s / 32768 /\ -1 <= v <= 1 /\
                       v * 32768 == inject_Z s)%Q)
          xs (Numpy.normalize xs).
Proof.
  induction 1 as [|s l Hs Hl IH]; simpl; constructor; [|exact IH].
  split; [reflexivity|].
  split; [apply to_float_bounds, Hs | apply to_float_roundtrip].
Qed.

Lemma normalize_concat parts :
  Numpy.normalize (List.concat parts) =
  List.concat (map Numpy.normalize parts).
Proof.
  unfold Numpy.normalize. apply concat_map.
Qed.

End Buffer.

(** ** Trimming *)

Section Strip.

Lemma not_space_None : not_space None.
Proof. intros c H; discriminate H. Qed.

Lemma not_space_Some c : Str.isspace c = false -> not_space (Some c).
Proof. intros Hc x H. inversion H; subst. exact Hc. Qed.

Lemma lstrip_spec s :
  exists pre, s = (pre ++ Str.lstrip s)%string /\
              Str.all_space pre = true /\
              not_space (first_char (Str.lstrip s)).
Proof.
  induction s as [|c r (pre & Heq & Hsp & Hns)]; simpl.
  - exists EmptyString. split; [reflexivity|]. split; [reflexivity|].
    apply not_space_None.
  - destruct (Str.isspace c) eqn:Ec.
    + exists (String c pre). simpl. rewrite Ec, Hsp, <- Heq.
      split; [reflexivity|]. split; [reflexivity|]. exact Hns.
    + exists EmptyString. split; [reflexivity|]. split; [reflexivity|].
      apply not_space_Some, Ec.
Qed.

Lemma rstrip_spec s :
  exists post, s = (Str.rstrip s ++ post)%string /\
               Str.all_space post = true /\
               not_space (last_char (Str.rstrip s)) /\
               (Str.rstrip s <> EmptyString ->
                first_char (Str.rstrip s) = first_char s).
Proof.
  induction s as [|c r (post & Heq & Hsp & Hns & Hfc)]; simpl.
  - exists EmptyString. split; [reflexivity|]. split; [reflexivity|].
    split; [apply not_space_None | reflexivity].
  - destruct (Str.rstrip r) as [|c' r'] eqn:Er; simpl in Heq.
    + subst post. destruct (Str.isspace c) eqn:Ec.
      * exists (String c r). simpl. rewrite Ec, Hsp.
        split; [reflexivity|]. split; [reflexivity|].
        split; [apply not_space_None | intro H; now elim H].
      * exists r. split; [reflexivity|]. split; [exact Hsp|].
        split; [apply not_space_Some, Ec | reflexivity].
    + exists post. split; [simpl; f_equal; exact Heq|].
      split; [exact Hsp|]. split; [exact Hns | reflexivity].
Qed.

Lemma strip_spec s : trimmed_of s (Str.strip s).
Proof.
  unfold trimmed_of, Str.strip.
  destruct (lstrip_spec s) as (pre & Hpre & Hsp & Hfirst).
  destruct (rstrip_spec (Str.lstrip s)) as (post & Hpost & Hsq & Hlast & Hfc).
  exists pre, post.
  split; [rewrite <- Hpost; exact Hpre|].
  split; [exact Hsp|]. split; [exact Hsq|]. split; [|exact Hlast].
  destruct (Str.rstrip (Str.lstrip s)) eqn:E.
  - apply not_space_None.
  - rewrite Hfc by discriminate. exact Hfirst.
Qed.

End Strip.

(** ** Reasoning about computations *)

#[local] Instance same_preorder {X} (f : world -> X) : PreOrder (same f).
Proof.
  split.
  - intro w. reflexivity.
  - intros a b c Hab Hbc. unfold same in *. congruence.
Qed.

Section Preservation.

Context {R : world -> world -> Prop} `{!PreOrder R}.

Lemma preserves_ret {A} (a : A) : preserves R (ret a).
Proof. intro w. reflexivity. Qed.

Lemma preserves_raise {A} (ex : exn) : preserves R (@raise A ex).
Proof. intro w. reflexivity. Qed.

Lemma preserves_get_self : preserves R get_self.
Proof. intro w. reflexivity. Qed.

Lemma preserves_bind {A B} (c : M A) (k : A -> M B) :
  preserves R c -> (forall a, preserves R (k a)) -> preserves R (bind c k).
Proof.
  intros Hc Hk w. unfold bind. specialize (Hc w).
  destruct (c w) as [[a|ex] w1]; simpl in *; [|exact Hc].
  etransitivity; [exact Hc | apply Hk].
Qed.

Lemma preserves_try_except {A} (body : M A) (handler : exn -> M A) :
  preserves R body -> (forall ex, preserves R (handler ex)) ->
  preserves R (try_except body handler).
Proof.
  intros Hb Hh w. unfold try_except. specialize (Hb w).
  destruct (body w) as [[a|ex] w1]; simpl in *; [exact Hb|].
  etransitivity; [exact Hb | apply Hh].
Qed.

Lemma preserves_for_range (body : nat -> M unit) n :
  (forall i, preserves R (body i)) ->
  forall from, preserves R (for_range from n body).
Proof.
  intro Hb. induction n as [|n IH]; intro from; simpl.
  - apply preserves_ret.
  - apply preserves_bind; [apply Hb | intros _; apply IH].
Qed.

End Preservation.

Lemma returns_ret {A} (a : A) : returns (ret a).
Proof. intro w. exists a. reflexivity. Qed.

Lemma returns_emit ev : returns (emit ev).
Proof. intro w. exists tt. reflexivity. Qed.

Lemma returns_modify f : returns (modify f).
Proof. intro w. exists tt. reflexivity. Qed.

Lemma returns_get_self : returns get_self.
Proof. intro w. exists (self w). reflexivity. Qed.

Lemma returns_bind {A B} (c : M A) (k : A -> M B) :
  returns c -> (forall a, returns (k a)) -> returns (bind c k).
Proof.
  intros Hc Hk w. unfold bind. destruct (Hc w) as [a Ha].
  destruct (c w) as [[a'|ex] w1]; simpl in Ha; [|discriminate].
  apply Hk.
Qed.

Lemma returns_try_except {A} (body : M A) (handler : exn -> M A) :
  (forall ex, returns (handler ex)) -> returns (try_except body handler).
Proof.
  intros Hh w. unfold try_except.
  destruct (body w) as [[a|ex] w1]; [exists a; reflexivity | apply Hh].
Qed.

Lemma returns_unit (c : M unit) w : returns c -> c w = (Ret tt, snd (c w)).
Proof.
  intro H. destruct (H w) as [[] Ha].
  destruct (c w) as [r w1]; simpl in *. now subst.
Qed.

Lemma engine_calls_app l l' :
  engine_calls (l ++ l') = engine_calls l ++ engine_calls l'.
Proof.
  induction l as [|x l IH]; [reflexivity|].
  destruct x; simpl; rewrite IH; reflexivity.
Qed.

Lemma injections_app l l' :
  injections (l ++ l') = injections l ++ injections l'.
Proof.
  induction l as [|x l IH]; [reflexivity|].
  destruct x; simpl; rewrite IH; reflexivity.
Qed.

Lemma skipn_length_app {A} (l l' : list A) :
  skipn (List.length l) (l ++ l') = l'.
Proof. induction l as [|x l IH]; [reflexivity | exact IH]. Qed.

Lemma new_events_app w w' l : log w' = log w ++ l -> new_events w w' = l.
Proof. intro H. unfold new_events. rewrite H. apply skipn_length_app. Qed.

(** Evaluate the updates of a world given by its fields. *)
Ltac world_simpl :=
  cbv [with_self with_log with_threads set_is_recording set_audio_frames
       set_stream set_p set_recording_error self threads log is_recording
       audio_frames stream p recording_error].

(** A primitive step: unfold it and compare the observation. *)
Ltac prim :=
  let w := fresh "w" in
  intro w; unfold same, flag, buffer, calls; cbn;
  rewrite ?engine_calls_app, ?injections_app; cbn;
  rewrite ?app_nil_r; reflexivity.

(** Walk down a computation along its binds, handlers and branches. *)
Ltac walk :=
  repeat first
    [ apply preserves_ret
    | apply preserves_raise
    | apply preserves_get_self
    | apply preserves_bind; [|intro]
    | apply preserves_try_except; [|intro]
    | apply preserves_for_range; intro
    | match goal with
      | |- preserves _ (if ?b then _ else _) => destruct b
      | |- preserves _ (match ?x with _ => _ end) => destruct x
      end
    | solve [prim] ].

(** ** The capture loop *)

Lemma _record_step_facts r t s :
  let '(t', s', out) := _record_step r t s in
  engine_calls out = [] /\ injections out = [] /\
  (recording_error s = true -> recording_error s' = true) /\
  (is_recording s = false -> is_recording s' = false) /\
  stream s' = stream s /\ p s' = p s.
Proof.
  unfold _record_step.
  destruct (at_pc t); [destruct (is_recording s) eqn:E | destruct r | ];
    try destruct (max_consecutive_errors <=? S (consecutive_errors t))%nat;
    cbn; repeat split; auto; congruence.
Qed.

Lemma run_threads_invariant (P : world -> Prop) :
  (forall i r w, P w -> P (capture i r w)) ->
  forall sched w, P w -> P (run_threads sched w).
Proof.
  intros Hstep sched. unfold run_threads.
  induction sched as [|[i r] sched IH]; intros w Hw; simpl; [exact Hw|].
  apply IH, Hstep, Hw.
Qed.

Lemma capture_calls i r w : same calls w (capture i r w).
Proof.
  unfold same, calls, capture.
  destruct (nth_error (threads w) i) as [t|]; [|reflexivity].
  pose proof (_record_step_facts r t (self w)) as H.
  destruct (_record_step r t (self w)) as [[t' s'] out].
  destruct H as (He & Hi & _). cbn.
  rewrite engine_calls_app, injections_app, He, Hi, !app_nil_r. reflexivity.
Qed.

Lemma capture_error_sticky i r w :
  recording_error (self w) = true -> recording_error (self (capture i r w)) = true.
Proof.
  unfold capture. destruct (nth_error (threads w) i) as [t|]; [|auto].
  pose proof (_record_step_facts r t (self w)) as H.
  destruct (_record_step r t (self w)) as [[t' s'] out]. cbn. apply H.
Qed.

Lemma capture_flag_down i r w :
  is_recording (self w) = false -> is_recording (self (capture i r w)) = false.
Proof.
  unfold capture. destruct (nth_error (threads w) i) as [t|]; [|auto].
  pose proof (_record_step_facts r t (self w)) as H.
  destruct (_record_step r t (self w)) as [[t' s'] out]. cbn. apply H.
Qed.

Lemma run_threads_calls sched w : same calls w (run_threads sched w).
Proof.
  apply (run_threads_invariant (fun w' => same calls w w')).
  - intros i r w1 H. etransitivity; [exact H | apply capture_calls].
  - reflexivity.
Qed.

Lemma after_pause_flag e w : is_recording (self (after_pause e w)) = false.
Proof.
  unfold after_pause.
  apply (run_threads_invariant (fun w' => is_recording (self w') = false)).
  - intros i r w1. apply capture_flag_down.
  - reflexivity.
Qed.

Lemma after_pause_error e w :
  recording_error (self w) = true ->
  recording_error (self (after_pause e w)) = true.
Proof.
  intro H. unfold after_pause.
  apply (run_threads_invariant (fun w' => recording_error (self w') = true)).
  - intros i r w1. apply capture_error_sticky.
  - exact H.
Qed.

Lemma after_pause_calls e w : same calls w (after_pause e w).
Proof.
  unfold after_pause.
  pose proof (run_threads_calls (pause e)
                (with_log (Sleep 100) (with_self (set_is_recording false) w))) as H.
  unfold same, calls in *. rewrite H. cbn.
  rewrite engine_calls_app, injections_app. cbn. rewrite !app_nil_r. reflexivity.
Qed.

Lemma same_calls_split w w' :
  same calls w w' ->
  engine_calls (log w') = engine_calls (log w) /\
  injections (log w') = injections (log w).
Proof.
  unfold same, calls. intro H. injection H as He Hi. split; assumption.
Qed.

Lemma after_pause_silent e w :
  engine_calls (log (after_pause e w)) = engine_calls (log w) /\
  injections (log (after_pause e w)) = injections (log w).
Proof. apply same_calls_split, after_pause_calls. Qed.

(** ** [start_recording] *)

Lemma read_discard_swallowed e i w :
  try_except (stream_read_discard e i) (fun _ => ret tt) w =
  (Ret tt, with_log (StreamRead (warmup_read e i)) w).
Proof.
  unfold try_except, stream_read_discard, bind, emit, ret, raise.
  destruct (warmup_read e i); reflexivity.
Qed.

Lemma warmup_loop e n : forall from w,
  for_range from n
    (fun i => try_except (stream_read_discard e i) (fun _ => ret tt)) w =
  (Ret tt, {| self := self w; threads := threads w;
              log := log w ++ warmup_events e from n |}).
Proof.
  induction n as [|n IH]; intros from w; simpl.
  - unfold ret, warmup_events. simpl. rewrite app_nil_r. destruct w; reflexivity.
  - unfold bind. rewrite read_discard_swallowed, IH.
    unfold with_log, warmup_events. simpl. rewrite <- app_assoc. reflexivity.
Qed.

Lemma discard_warmup_spec e w :
  discard_warmup e w =
  (Ret tt, {| self := self w; threads := threads w;
              log := log w ++ warmup_events e 0 warmup_chunks |}).
Proof. apply warmup_loop. Qed.

Lemma start_recording_ok e w :
  is_recording (self w) = false ->
  pyaudio_ok e = true -> open_ok e = true ->
  paplay_ok e 0 = true -> paplay_ok e 1 = true ->
  start_recording e w =
  (Ret tt,
   {| self := {| is_recording := true; audio_frames := [];
                 stream := Some StreamIsOpen; p := Some PaLive;
                 recording_error := false |};
      threads := threads w ++ [new_thread];
      log := log w ++ start_events e |}).
Proof.
  intros Hrec Hpa Hop Hc0 Hc1.
  unfold start_recording, open_and_prime, pyaudio_PyAudio, p_open, paplay,
    time_sleep, thread_start.
  unfold bind at 1. unfold get_self at 1. rewrite Hrec.
  rewrite Hpa, Hop, Hc0, Hc1.
  unfold try_except, bind, modify, emit, ret.
  rewrite discard_warmup_spec.
  cbv [with_threads with_log with_self self threads log].
  unfold start_events. rewrite <- !app_assoc. reflexivity.
Qed.

Lemma start_recording_accepted e w :
  is_recording (self w) = false ->
  start_recording e w =
  open_and_prime e
    (with_self (fun s => set_recording_error false
                           (set_audio_frames [] (set_is_recording true s))) w).
Proof.
  intro Hrec. unfold start_recording.
  unfold bind at 1. unfold get_self at 1. rewrite Hrec. reflexivity.
Qed.

Lemma open_and_prime_buffer e : preserves (same buffer) (open_and_prime e).
Proof.
  unfold open_and_prime, pyaudio_PyAudio, p_open, paplay, time_sleep,
    discard_warmup, stream_read_discard, thread_start, p_terminate.
  walk.
Qed.

Lemma open_and_prime_calls e : preserves (same calls) (open_and_prime e).
Proof.
  unfold open_and_prime, pyaudio_PyAudio, p_open, paplay, time_sleep,
    discard_warmup, stream_read_discard, thread_start, p_terminate.
  walk.
Qed.

(** ** [stop_recording] *)

Lemma stop_recording_accepted e w :
  is_recording (self w) = true ->
  stop_recording e w = finish_recording e (after_pause e w).
Proof.
  intro Hrec. unfold stop_recording.
  unfold bind at 1. unfold get_self at 1. rewrite Hrec. reflexivity.
Qed.

Lemma close_device_spec e w :
  close_device e w =
  (Ret tt, {| self := closed e (self w); threads := threads w;
              log := log w ++ close_events e (self w) |}).
Proof.
  destruct w as [[r f st pa er] th lg].
  unfold close_device, stream_stop_close, p_terminate, closed, close_events.
  unfold bind, try_except, get_self, modify, emit, ret, raise. cbn.
  destruct st as [st|], pa as [pa|]; try destruct (close_ok e); cbn;
    world_simpl; rewrite <- ?app_assoc, ?app_nil_r; reflexivity.
Qed.

Lemma finish_recording_spec e w :
  finish_recording e w =
  check_and_transcribe e
    {| self := closed e (self w); threads := threads w;
       log := log w ++ Print MsgStopped :: close_events e (self w) |}.
Proof.
  unfold finish_recording, bind at 1 2, emit.
  rewrite close_device_spec. unfold with_log. cbn [self threads log].
  rewrite <- app_assoc. reflexivity.
Qed.

Lemma close_events_calls e s :
  engine_calls (close_events e s) = [] /\ injections (close_events e s) = [].
Proof.
  unfold close_events.
  destruct (stream s), (p s); try destruct (close_ok e); split; reflexivity.
Qed.

Lemma type_text_spec e text w :
  type_text e text w =
  (Ret tt, {| self := self w; threads := threads w;
              log := log w ++ type_events e text |}).
Proof.
  unfold type_text, keyboard_type, time_sleep, type_events.
  unfold try_except, bind, emit, ret, raise, with_log. cbn.
  destruct (type_ok e text); cbn; rewrite <- !app_assoc; reflexivity.
Qed.

Lemma transcribe_frames_quiet e w samples :
  Numpy.frombuffer (join_bytes (audio_frames (self w))) = Some samples ->
  Numpy.lt (Numpy.mean (Numpy.abs (Numpy.normalize samples)))
           SILENCE_THRESHOLD = true ->
  transcribe_frames e w = (Ret tt, with_log (Print MsgTooQuiet) w).
Proof.
  intros Hbuf Hlt. unfold transcribe_frames, try_except, bind, get_self.
  rewrite Hbuf, Hlt. reflexivity.
Qed.

Lemma transcribe_frames_text e w samples segments :
  Numpy.frombuffer (join_bytes (audio_frames (self w))) = Some samples ->
  Numpy.lt (Numpy.mean (Numpy.abs (Numpy.normalize samples)))
           SILENCE_THRESHOLD = false ->
  transcribe e (Numpy.normalize samples) = Some segments ->
  transcribe_frames e w =
  (Ret tt, {| self := self w; threads := threads w;
              log := log w ++ Print MsgProcessing
                       :: Transcribe (Numpy.normalize samples)
                       :: text_events e segments |}).
Proof.
  intros Hbuf Hlt Heng.
  unfold transcribe_frames, model_transcribe, try_except, bind, get_self.
  rewrite Hbuf, Hlt. unfold emit at 1 2. cbn [fst snd]. rewrite Heng.
  unfold ret at 1, text_events.
  destruct (Str.nonempty (join_segments segments)).
  - unfold emit. rewrite type_text_spec. unfold with_log. cbn [self threads log].
    rewrite <- !app_assoc. reflexivity.
  - unfold emit, with_log. cbn [self threads log].
    rewrite <- !app_assoc. reflexivity.
Qed.



Lemma transcribe_frames_returns e : returns (transcribe_frames e).
Proof.
  unfold transcribe_frames. apply returns_try_except. intros _. apply returns_emit.
Qed.

Lemma check_and_transcribe_returns e : returns (check_and_transcribe e).
Proof.
  unfold check_and_transcribe. apply returns_bind; [apply returns_get_self|].
  intro s. destruct (recording_error s).
  - apply returns_bind; [apply returns_emit | intros _; apply returns_modify].
  - destruct (audio_frames s);
      [apply returns_emit | apply transcribe_frames_returns].
Qed.

Lemma check_and_transcribe_flag e : preserves (same flag) (check_and_transcribe e).
Proof.
  unfold check_and_transcribe, transcribe_frames, model_transcribe, type_text,
    keyboard_type, time_sleep.
  walk.
Qed.

Lemma finish_recording_returns e w :
  finish_recording e w = (Ret tt, snd (finish_recording e w)).
Proof.
  rewrite finish_recording_spec. apply returns_unit, check_and_transcribe_returns.
Qed.

Lemma finish_recording_flag e w :
  is_recording (self (snd (finish_recording e w))) = is_recording (self w).
Proof.
  rewrite finish_recording_spec.
  exact (check_and_transcribe_flag e _).
Qed.

(** * The claims *)

(** C2. A start-event received while a session is active, and a stop-event
    received while idle, are no-ops: the method returns at its guard and the
    whole world (object, threads, log) is unchanged.  The guard reads only
    [is_recording], never a clock, and any run of such redundant events
    leaves the world as it was. *)
Theorem debounce_by_state e w :
  (is_recording (self w) = true ->
   start_recording e w = (Ret tt, w) /\
   forall es, fold_left (fun w0 e0 => snd (start_recording e0 w0)) es w = w) /\
  (is_recording (self w) = false ->
   stop_recording e w = (Ret tt, w) /\
   forall es, fold_left (fun w0 e0 => snd (stop_recording e0 w0)) es w = w).
Proof.
  assert (Hstart : forall e0, is_recording (self w) = true ->
                              start_recording e0 w = (Ret tt, w)).
  { intros e0 H. unfold start_recording, bind, get_self. rewrite H. reflexivity. }
  assert (Hstop : forall e0, is_recording (self w) = false ->
                             stop_recording e0 w = (Ret tt, w)).
  { intros e0 H. unfold stop_recording, bind, get_self. rewrite H. reflexivity. }
  split; intro H; (split; [auto|]); intro es;
    induction es as [|e0 es IH]; simpl; auto.
  - rewrite (Hstart e0 H). exact IH.
  - rewrite (Hstop e0 H). exact IH.
Qed.

Lemma debounce_by_state_witness :
  start_recording (nominal [] []) (recording [loud] []) =
    (Ret tt, recording [loud] []) /\
  stop_recording (nominal [] []) init_world = (Ret tt, init_world).
Proof.
  split.
  - apply (proj1 (debounce_by_state (nominal [] []) (recording [loud] []))).
    reflexivity.
  - apply (proj2 (debounce_by_state (nominal [] []) init_world)).
    reflexivity.
Defined.

(** C6. Normalisation of the buffer: when every captured chunk holds whole
    16-bit samples, decoding the joined bytes gives the chunks' samples in
    capture order, normalising commutes with the concatenation, every sample
    is a signed 16-bit integer, and each normalised value is the sample
    divided by 32768, lies in [-1,1] and gives the sample back when multiplied
    by 32768. *)
Theorem normalization_exact frames parts :
  Forall2 (fun c xs => Numpy.frombuffer c = Some xs) frames parts ->
  Numpy.frombuffer (join_bytes frames) = Some (List.concat parts) /\
  Numpy.normalize (List.concat parts) = List.concat (map Numpy.normalize parts) /\
  Forall int16_range (List.concat parts) /\
  Forall2 (fun s v => (v == inject_Z s / 32768 /\ -1 <= v <= 1 /\
                       v * 32768 == inject_Z s)%Q)
          (List.concat parts) (Numpy.normalize (List.concat parts)).
Proof.
  intro H.
  pose proof (frombuffer_join frames parts H) as Hjoin.
  pose proof (frombuffer_range _ _ Hjoin) as Hrange.
  split; [exact Hjoin|]. split; [apply normalize_concat|]. split; [exact Hrange|].
  apply normalize_samples, Hrange.
Qed.

Lemma normalization_exact_witness :
  Numpy.frombuffer (join_bytes [loud; faint]) = Some [16384; -16384; 1; -1].
Proof.
  apply (normalization_exact [loud; faint] [[16384; -16384]; [1; -1]]).
  repeat constructor.
Defined.

(** The world handed to the transcription: the pause is over and the device
    is closed. *)
Lemma stop_recording_healthy e w :
  is_recording (self w) = true ->
  recording_error (self (after_pause e w)) = false ->
  audio_frames (self (after_pause e w)) <> [] ->
  stop_recording e w =
  transcribe_frames e
    {| self := closed e (self (after_pause e w));
       threads := threads (after_pause e w);
       log := log (after_pause e w)
              ++ Print MsgStopped :: close_events e (self (after_pause e w)) |}.
Proof.
  intros Hrec Herr Hne.
  rewrite (stop_recording_accepted e w Hrec), finish_recording_spec.
  unfold check_and_transcribe, bind, get_self. cbn [self closed recording_error audio_frames].
  rewrite Herr.
  destruct (audio_frames (self (after_pause e w))); [now elim Hne | reflexivity].
Qed.

Lemma strip_all_trimmed segments :
  Forall2 trimmed_of segments (map Str.strip segments).
Proof.
  induction segments as [|s l IH]; simpl; constructor;
    [apply strip_spec | exact IH].
Qed.


(** C7. When the engine returns [segments] for a healthy, audible buffer, the
    text is the segments, each trimmed of surrounding whitespace, joined by
    single spaces ("hello " and " world" give "hello world").  A non-empty
    text is handed to the injector, once; an empty text is reported as "no
    speech detected" and nothing is injected. *)
Theorem injected_text_is_joined_segments e w samples segments :
  is_recording (self w) = true ->
  recording_error (self (after_pause e w)) = false ->
  audio_frames (self (after_pause e w)) <> [] ->
  Numpy.frombuffer (join_bytes (audio_frames (self (after_pause e w))))
    = Some samples ->
  Numpy.lt (Numpy.mean (Numpy.abs (Numpy.normalize samples)))
           SILENCE_THRESHOLD = false ->
  transcribe e (Numpy.normalize samples) = Some segments ->
  let text := join_segments segments in
  let w' := snd (stop_recording e w) in
  (exists trimmed, Forall2 trimmed_of segments trimmed /\
                   text = String.concat " " trimmed) /\
  join_segments ["hello "%string; " world"%string] = "hello world"%string /\
  (text <> EmptyString ->
   injections (log w') = injections (log w) ++ [text]) /\
  (text = EmptyString ->
   injections (log w') = injections (log w) /\
   exists l, log w' = l ++ [Print MsgNoSpeech]).
Proof.
  intros Hrec Herr Hne Hbuf Hlt Heng text w'.
  split; [exists (map Str.strip segments); split;
          [apply strip_all_trimmed | reflexivity] |].
  split; [reflexivity|].
  assert (Hlog : log w' = (log (after_pause e w)
                  ++ Print MsgStopped :: close_events e (self (after_pause e w)))
                  ++ Print MsgProcessing :: Transcribe (Numpy.normalize samples)
                       :: text_events e segments).
  { unfold w'. rewrite (stop_recording_healthy e w Hrec Herr Hne).
    rewrite (transcribe_frames_text e _ samples segments); auto. }
  assert (Hinj : injections (log w') =
                 injections (log w) ++ injections (text_events e segments)).
  { rewrite Hlog, !injections_app. cbn [injections].
    destruct (close_events_calls e (self (after_pause e w))) as [_ ->].
    destruct (after_pause_silent e w) as [_ ->].
    rewrite app_nil_r. reflexivity. }
  unfold text_events in *. fold text in Hinj, Hlog.
  split; intro Ht.
  - destruct text; [now elim Ht|]. cbn [Str.nonempty] in Hinj.
    rewrite Hinj. unfold type_events. cbn.
    destruct (type_ok e _); reflexivity.
  - rewrite Ht in Hinj, Hlog. cbn [Str.nonempty] in Hinj, Hlog.
    split; [rewrite Hinj; cbn; apply app_nil_r|].
    eexists. rewrite Hlog.
    change (?a :: ?b :: [Print MsgNoSpeech]) with ([a; b] ++ [Print MsgNoSpeech]).
    rewrite app_assoc. reflexivity.
Qed.

Lemma injected_text_witness :
  injections
    (log (snd (stop_recording (nominal ["hello "%string; " world"%string] [])
                              (recording [loud] [])))) =
  ["hello world"%string].
Proof.
  refine (proj1 (proj2 (proj2
    (injected_text_is_joined_segments
       (nominal ["hello "%string; " world"%string] []) (recording [loud] [])
       [16384; -16384] ["hello "%string; " world"%string] _ _ _ _ _ _))) _);
    try reflexivity; vm_compute; discriminate.
Defined.



(** C4. Every stop-event accepted while recording ends with the controller
    idle, whatever the branch: [stop_recording] returns normally for every
    answer of the device, the engine and the injector, the hotkey handler's
    own [except] is not reached, [is_recording] is false afterwards, and the
    next press of the hotkey is taken as a start-event. *)
Theorem stop_always_returns_to_idle e w :
  is_recording (self w) = true ->
  let w' := snd (stop_recording e w) in
  stop_recording e w = (Ret tt, w') /\
  on_hotkey e F9 w = (Ret tt, w') /\
  is_recording (self w') = false /\
  forall e', on_hotkey e' F9 w' =
             try_except (start_recording e')
                        (fun _ => emit (Print MsgHotkeyError)) w' /\
             (pyaudio_ok e' = true -> open_ok e' = true ->
              paplay_ok e' 0 = true -> paplay_ok e' 1 = true ->
              let w2 := snd (on_hotkey e' F9 w') in
              is_recording (self w2) = true /\
              threads w2 = threads w' ++ [new_thread]).
Proof.
  intros Hrec w'.
  assert (Hret : stop_recording e w = (Ret tt, w')).
  { unfold w'. rewrite (stop_recording_accepted e w Hrec).
    apply finish_recording_returns. }
  assert (Hidle : is_recording (self w') = false).
  { unfold w'. rewrite (stop_recording_accepted e w Hrec).
    rewrite finish_recording_flag. apply after_pause_flag. }
  split; [exact Hret|].
  split.
  { unfold on_hotkey, try_except, bind, get_self. cbn [key_eqb HOTKEY].
    rewrite Hrec. cbn [negb]. rewrite Hret. reflexivity. }
  split; [exact Hidle|].
  intro e'.
  assert (Hdisp : on_hotkey e' F9 w' =
                  try_except (start_recording e')
                             (fun _ => emit (Print MsgHotkeyError)) w').
  { unfold on_hotkey, try_except, bind, get_self. cbn [key_eqb HOTKEY].
    rewrite Hidle. reflexivity. }
  split; [exact Hdisp|].
  intros Hpa Hop Hc0 Hc1 w2. unfold w2. rewrite Hdisp.
  unfold try_except. rewrite (start_recording_ok e' w' Hidle Hpa Hop Hc0 Hc1).
  split; reflexivity.
Qed.

Lemma stop_always_returns_to_idle_witness :
  is_recording
    (self (snd (stop_recording
                  {| pyaudio_ok := true; open_ok := true;
                     paplay_ok := fun _ => true;
                     warmup_read := fun _ => ReadOSError; pause := [];
                     close_ok := false; transcribe := fun _ => None;
                     type_ok := fun _ => false |}
                  (recording [loud] [])))) = false.
Proof.
  refine (proj1 (proj2 (proj2 (stop_always_returns_to_idle _ _ _)))).
  reflexivity.
Defined.



Lemma read_count_app l l' : read_count (l ++ l') = (read_count l + read_count l')%nat.
Proof.
  induction l as [|x l IH]; [reflexivity|].
  destruct x; simpl; rewrite IH; reflexivity.
Qed.

Lemma read_count_warmup e n : forall from,
  read_count (warmup_events e from n) = n.
Proof.
  unfold warmup_events.
  induction n as [|n IH]; intro from; simpl; [reflexivity | now rewrite IH].
Qed.

(** C9. The warm-up makes [warmup_chunks] = 15 reads, the whole chunks of
    1024 samples that fit in 1.0 s at 16000 Hz, after the cues and before the
    capture thread starts.  Whatever each of these reads answers (a chunk, an
    [OSError], any other exception), the session starts the same: nothing is
    buffered, the error flag is clear, the session is recording and the
    capture loop begins with a consecutive-error count of 0. *)
Theorem warmup_discards_and_swallows e w :
  is_recording (self w) = false ->
  pyaudio_ok e = true -> open_ok e = true ->
  paplay_ok e 0 = true -> paplay_ok e 1 = true ->
  let w' := snd (start_recording e w) in
  warmup_chunks = 15%nat /\
  Z.of_nat warmup_chunks * CHUNK <= RATE * 1
    < (Z.of_nat warmup_chunks + 1) * CHUNK /\
  new_events w w' =
    [PyAudioInit; StreamOpen; Print MsgBeepWake; Paplay; Sleep 500;
     Print MsgBeepReady; Paplay]
    ++ map (fun i => StreamRead (warmup_read e i)) (seq 0 warmup_chunks)
    ++ [Print MsgRecordingNow; ThreadStart] /\
  read_count (new_events w w') = warmup_chunks /\
  audio_frames (self w') = [] /\
  recording_error (self w') = false /\
  is_recording (self w') = true /\
  threads w' = threads w ++ [{| at_pc := AtWhile; consecutive_errors := 0 |}].
Proof.
  intros Hrec Hpa Hop Hc0 Hc1 w'. unfold w'.
  rewrite (start_recording_ok e w Hrec Hpa Hop Hc0 Hc1). cbn [snd self threads log].
  rewrite (new_events_app w _ (start_events e)) by reflexivity.
  split; [reflexivity|]. split; [vm_compute; split; congruence|].
  split; [reflexivity|].
  split; [|repeat split].
  unfold start_events. rewrite !read_count_app, read_count_warmup. reflexivity.
Qed.

Lemma warmup_discards_and_swallows_witness :
  threads (snd (start_recording (nominal [] []) init_world)) =
  [{| at_pc := AtWhile; consecutive_errors := 0 |}].
Proof.
  refine (proj2 (proj2 (proj2 (proj2 (proj2 (proj2 (proj2
    (warmup_discards_and_swallows (nominal [] []) init_world _ _ _ _ _))))))));
    reflexivity.
Defined.

(** C8, as the code has it.  On an accepted start-event whose device opens
    and whose cue playbacks return, the cue is played exactly twice, and both
    cues come before the warm-up: open the device, first cue, a pause of
    0.5 s, second cue, then the [warmup_chunks] discarded reads, and only
    then the capture thread starts. *)
Theorem cues_precede_warmup e w :
  is_recording (self w) = false ->
  pyaudio_ok e = true -> open_ok e = true ->
  paplay_ok e 0 = true -> paplay_ok e 1 = true ->
  let l := new_events w (snd (start_recording e w)) in
  l = [PyAudioInit; StreamOpen; Print MsgBeepWake; Paplay; Sleep 500;
       Print MsgBeepReady; Paplay]
      ++ map (fun i => StreamRead (warmup_read e i)) (seq 0 warmup_chunks)
      ++ [Print MsgRecordingNow; ThreadStart] /\
  cue_count l = 2%nat /\
  before_cue 2 l = [PyAudioInit; StreamOpen; Print MsgBeepWake; Paplay;
                    Sleep 500; Print MsgBeepReady] /\
  read_count (before_cue 2 l) = 0%nat /\
  read_count l = warmup_chunks.
Proof.
  intros Hrec Hpa Hop Hc0 Hc1 l. unfold l.
  rewrite (start_recording_ok e w Hrec Hpa Hop Hc0 Hc1). cbn [snd log].
  rewrite (new_events_app w _ (start_events e)) by reflexivity.
  repeat split.
Qed.

Lemma cues_precede_warmup_witness :
  cue_count (new_events init_world
               (snd (start_recording (nominal [] []) init_world))) = 2%nat.
Proof.
  refine (proj1 (proj2
    (cues_precede_warmup (nominal [] []) init_world _ _ _ _ _)));
    reflexivity.
Defined.

(** C8 as stated fails: with a device that opens, the second cue is played
    before the first warm-up read, not after the last; with a device that does
    not open, no cue is played at all. *)
Lemma second_cue_before_warmup :
  ~ cues_as_specified
      (new_events init_world (snd (start_recording (nominal [] []) init_world)))
  /\
  ~ cues_as_specified
      (new_events init_world (snd (start_recording no_device init_world))).
Proof.
  split; intros (H2 & H1 & Hw); vm_compute in *; discriminate.
Qed.

(** ** After a fault *)

Lemma nth_error_set_nth {A} (x : A) l : forall i t,
  nth_error l i = Some t -> nth_error (set_nth i x l) i = Some x.
Proof.
  induction l as [|y l IH]; intros [|i] t H; simpl in *;
    try discriminate; [reflexivity | eapply IH, H].
Qed.

Lemma run_threads_error_sticky sched w :
  recording_error (self w) = true ->
  recording_error (self (run_threads sched w)) = true.
Proof.
  apply (run_threads_invariant (fun w' => recording_error (self w') = true)).
  intros i r w1. apply capture_error_sticky.
Qed.

(** Once the error flag is set, the next press of the hotkey, whether it is
    taken as a stop or as a start, calls neither the engine nor the injector
    and leaves the buffer empty. *)
Lemma faulted_session_discarded e w :
  recording_error (self w) = true ->
  same calls w (snd (on_hotkey e F9 w)) /\
  audio_frames (self (snd (on_hotkey e F9 w))) = [].
Proof.
  intro Herr. unfold on_hotkey, try_except, bind, get_self.
  cbn [key_eqb HOTKEY]. destruct (is_recording (self w)) eqn:Hrec; cbn [negb].
  - rewrite (stop_recording_accepted e w Hrec), finish_recording_spec.
    unfold check_and_transcribe, bind, get_self.
    cbn [self closed recording_error].
    rewrite (after_pause_error e w Herr).
    unfold emit, modify, with_self, with_log. cbn.
    split; [|reflexivity].
    unfold same, calls. cbn.
    destruct (close_events_calls e (self (after_pause e w))) as [Hc Hi].
    destruct (after_pause_silent e w) as [He Hj].
    rewrite !engine_calls_app, !injections_app. cbn [engine_calls injections].
    rewrite ?engine_calls_app, ?injections_app, Hc, Hi, He, Hj, !app_nil_r.
    reflexivity.
  - rewrite (start_recording_accepted e w Hrec).
    pose proof (open_and_prime_calls e
      (with_self (fun s => set_recording_error false
                   (set_audio_frames [] (set_is_recording true s))) w)) as Hc.
    pose proof (open_and_prime_buffer e
      (with_self (fun s => set_recording_error false
                   (set_audio_frames [] (set_is_recording true s))) w)) as Hb.
    destruct (open_and_prime e _) as [[[]|ex] w1]; cbn [snd] in *.
    + split; [exact Hc | now inversion Hb].
    + unfold emit, with_log. cbn [snd self].
      split; [|now inversion Hb].
      unfold same, calls in *. cbn [log].
      rewrite engine_calls_app, injections_app. cbn.
      rewrite !app_nil_r. exact Hc.
Qed.



(** ** The hand-off at a stop-event *)
















(** * Further properties of the code *)

(** ** Decoding *)

(** [np.frombuffer] raises exactly on the buffers of odd length, and a decoded
    buffer holds one sample for every two bytes. *)
Theorem frombuffer_whole_samples data :
  (Numpy.frombuffer data = None <-> Nat.odd (List.length data) = true) /\
  (forall xs, Numpy.frombuffer data = Some xs ->
              List.length data = (2 * List.length xs)%nat).
Proof.
  induction data as [| b | lo hi rest [IHn IHs]] using bytes_pair_ind.
  - split; [split; discriminate|]. intros xs H. inversion H. reflexivity.
  - split; [split; reflexivity|]. intros xs H. discriminate H.
  - change (Nat.odd (List.length (lo :: hi :: rest)))
      with (Nat.odd (List.length rest)).
    simpl Numpy.frombuffer.
    destruct (Numpy.frombuffer rest) as [zs|] eqn:E; split.
    + split; [discriminate|]. intro H. apply IHn in H. discriminate H.
    + intros xs H. inversion H; subst. simpl. rewrite (IHs zs eq_refl). lia.
    + split; [intros _; apply IHn; reflexivity | reflexivity].
    + intros xs H. discriminate H.
Qed.

Lemma int16_of_le_inj lo hi lo' hi' :
  Numpy.int16_of_le lo hi = Numpy.int16_of_le lo' hi' -> lo = lo' /\ hi = hi'.
Proof.
  unfold Numpy.int16_of_le. cbv zeta.
  pose proof (Byte.to_N_bounded lo). pose proof (Byte.to_N_bounded hi).
  pose proof (Byte.to_N_bounded lo'). pose proof (Byte.to_N_bounded hi').
  intro H4.
  assert (Byte.to_N lo = Byte.to_N lo' /\ Byte.to_N hi = Byte.to_N hi') as [Hl Hh].
  { destruct (Z.ltb_spec (Z.of_N (to_N lo) + 256 * Z.of_N (to_N hi)) 32768);
      destruct (Z.ltb_spec (Z.of_N (to_N lo') + 256 * Z.of_N (to_N hi')) 32768);
      lia. }
  pose proof (Byte.of_to_N lo) as Hlo. pose proof (Byte.of_to_N hi) as Hhi.
  rewrite Hl, Byte.of_to_N in Hlo. rewrite Hh, Byte.of_to_N in Hhi.
  split; congruence.
Qed.

(** Decoding loses nothing: two buffers with the same samples are the same
    bytes. *)
Theorem frombuffer_injective a : forall b xs,
  Numpy.frombuffer a = Some xs -> Numpy.frombuffer b = Some xs -> a = b.
Proof.
  induction a as [| c | lo hi rest IH] using bytes_pair_ind; intros b xs Ha Hb.
  - inversion Ha; subst. destruct b as [|x [|y b]]; simpl in Hb;
      [reflexivity | discriminate |].
    destruct (Numpy.frombuffer b); discriminate.
  - discriminate Ha.
  - simpl in Ha. destruct (Numpy.frombuffer rest) as [zs|] eqn:E; [|discriminate].
    inversion Ha; subst. destruct b as [|x [|y b]]; simpl in Hb;
      try discriminate.
    destruct (Numpy.frombuffer b) as [zs'|] eqn:E'; [|discriminate].
    inversion Hb as [[H16 Hzs]]. subst zs'.
    apply int16_of_le_inj in H16. destruct H16 as [-> ->].
    f_equal. f_equal. eapply IH; eauto.
Qed.

Lemma frombuffer_injective_witness : [x00; x40]%byte = [x00; x40]%byte.
Proof.
  apply (frombuffer_injective [x00; x40]%byte [x00; x40]%byte [16384]);
    reflexivity.
Defined.

(** ** The silence threshold *)









(** ** Trimming and joining *)

Lemma lstrip_fixed t : not_space (first_char t) -> Str.lstrip t = t.
Proof.
  destruct t as [|c r]; [reflexivity|]. intro H. simpl.
  rewrite (H c eq_refl). reflexivity.
Qed.

Lemma rstrip_fixed t : not_space (last_char t) -> Str.rstrip t = t.
Proof.
  induction t as [|c r IH]; [reflexivity|]. intro H.
  destruct r as [|d r2].
  - simpl. rewrite (H c eq_refl). reflexivity.
  - change (Str.rstrip (String c (String d r2)))
      with (match Str.rstrip (String d r2) with
            | EmptyString =>
                if Str.isspace c then EmptyString else String c EmptyString
            | r' => String c r'
            end).
    rewrite (IH H). reflexivity.
Qed.

(** Trimming twice is trimming once. *)
Theorem strip_idempotent s : Str.strip (Str.strip s) = Str.strip s.
Proof.
  destruct (strip_spec s) as (pre & post & _ & _ & _ & Hfirst & Hlast).
  unfold Str.strip at 1.
  rewrite (lstrip_fixed _ Hfirst). apply rstrip_fixed, Hlast.
Qed.

Lemma all_space_app a b :
  Str.all_space (a ++ b) = Str.all_space a && Str.all_space b.
Proof.
  induction a as [|c a IH]; [reflexivity|]. simpl.
  rewrite IH. apply andb_assoc.
Qed.

Lemma strip_empty_iff s :
  Str.strip s = EmptyString <-> Str.all_space s = true.
Proof.
  split.
  - intro H. destruct (strip_spec s) as (pre & post & Heq & Hpre & Hpost & _).
    rewrite H in Heq. rewrite Heq, all_space_app, Hpre. exact Hpost.
  - intro H. unfold Str.strip.
    assert (Hl : Str.lstrip s = EmptyString).
    { induction s as [|c r IH]; [reflexivity|]. simpl in *.
      apply andb_true_iff in H. destruct H as [Hc Hr].
      rewrite Hc. apply IH, Hr. }
    rewrite Hl. reflexivity.
Qed.

Lemma concat_empty_iff l :
  String.concat " " l = EmptyString <-> l = [] \/ l = [EmptyString].
Proof.
  destruct l as [|x [|y r]]; simpl.
  - split; auto.
  - split; [intros ->; auto | intros [H|H]; [discriminate | now inversion H]].
  - split; [|intros [H|H]; discriminate].
    destruct x; discriminate.
Qed.

(** The joined text is empty only when the engine returned no segment, or
    a single segment made of whitespace: two or more segments give a non-empty
    text (at least the separator), which is typed even if every segment is
    blank. *)
Theorem text_is_empty_iff segments :
  join_segments segments = EmptyString <->
  segments = [] \/ exists s, segments = [s] /\ Str.all_space s = true.
Proof.
  unfold join_segments, Str.join. rewrite concat_empty_iff. split.
  - intros [H|H].
    + left. destruct segments; [reflexivity | discriminate].
    + right. destruct segments as [|s [|t r]]; try discriminate.
      exists s. split; [reflexivity|]. apply strip_empty_iff.
      now inversion H.
  - intros [->|(s & -> & Hs)]; [left; reflexivity|].
    right. simpl. apply strip_empty_iff in Hs. rewrite Hs. reflexivity.
Qed.

(** ** The hotkey handler and the start path *)

Lemma on_hotkey_returns e k : returns (on_hotkey e k).
Proof.
  unfold on_hotkey. apply returns_try_except. intros _. apply returns_emit.
Qed.

(** The hotkey handler never lets an exception out, whatever the key and
    whatever the collaborators do (also when [pyaudio.PyAudio()] raises
    outside the [try] of [start_recording]); a key other than F9 changes
    nothing. *)
Theorem on_hotkey_never_raises e k w :
  fst (on_hotkey e k w) = Ret tt /\
  on_hotkey e OtherKey w = (Ret tt, w).
Proof.
  split; [|reflexivity].
  rewrite (returns_unit _ w (on_hotkey_returns e k)). reflexivity.
Qed.

(** When the device cannot be opened the start is abandoned: the controller
    is idle again, PortAudio is terminated, no cue is played, no warm-up read
    is made and no capture thread is started. *)
Theorem open_failure_aborts_start e w :
  is_recording (self w) = false ->
  pyaudio_ok e = true -> open_ok e = false ->
  start_recording e w =
  (Ret tt,
   {| self := {| is_recording := false; audio_frames := [];
                 stream := stream (self w); p := Some PaTerminated;
                 recording_error := false |};
      threads := threads w;
      log := log w ++ [PyAudioInit; StreamOpen; Print MsgOpenError;
                       PaTerminate] |}).
Proof.
  intros Hrec Hpa Hop. rewrite (start_recording_accepted e w Hrec).
  destruct w as [[r f st pa er] th lg].
  unfold open_and_prime, pyaudio_PyAudio, p_open, p_terminate.
  unfold try_except, bind, emit, modify, get_self, ret, raise.
  rewrite Hpa, Hop. world_simpl. rewrite <- !app_assoc. reflexivity.
Qed.

Lemma open_failure_aborts_start_witness :
  snd (start_recording no_device init_world) =
  {| self := {| is_recording := false; audio_frames := [];
                stream := None; p := Some PaTerminated;
                recording_error := false |};
     threads := [];
     log := [PyAudioInit; StreamOpen; Print MsgOpenError; PaTerminate] |}.
Proof.
  rewrite (open_failure_aborts_start no_device init_world);
    reflexivity.
Defined.



(** [pyaudio.PyAudio()] is called outside the [try] of [start_recording]:
    when it raises, the exception reaches the hotkey handler with
    [is_recording] already set and no capture thread started.  The next
    press is therefore taken as a stop-event; it finds an empty buffer,
    reports that no audio was recorded and puts the controller back to idle
    without calling the engine. *)
Theorem pyaudio_failure_leaves_flag_set e w :
  is_recording (self w) = false ->
  pyaudio_ok e = false ->
  let w1 := snd (on_hotkey e F9 w) in
  is_recording (self w1) = true /\
  audio_frames (self w1) = [] /\
  recording_error (self w1) = false /\
  threads w1 = threads w /\
  log w1 = log w ++ [PyAudioInit; Print MsgHotkeyError] /\
  forall e', pause e' = [] ->
    let w2 := snd (on_hotkey e' F9 w1) in
    is_recording (self w2) = false /\
    engine_calls (log w2) = engine_calls (log w) /\
    injections (log w2) = injections (log w) /\
    exists l, log w2 = l ++ [Print MsgNoAudio].
Proof.
  intros Hrec Hpa w1.
  destruct w as [[r f st pa er] th lg]. cbn in Hrec. subst r.
  assert (Hw1 : w1 =
    {| self := {| is_recording := true; audio_frames := []; stream := st;
                  p := pa; recording_error := false |};
       threads := th; log := lg ++ [PyAudioInit; Print MsgHotkeyError] |}).
  { unfold w1, on_hotkey, start_recording, open_and_prime, pyaudio_PyAudio.
    unfold try_except, bind, emit, modify, get_self, ret, raise.
    cbn [key_eqb HOTKEY]. world_simpl. cbn [negb]. rewrite Hpa.
    cbn [snd]. rewrite <- !app_assoc. reflexivity. }
  rewrite Hw1. cbn [self threads log is_recording audio_frames recording_error].
  do 5 (split; [reflexivity|]).
  intros e' Hpause.
  assert (Hstop : on_hotkey e' F9
            {| self := {| is_recording := true; audio_frames := [];
                          stream := st; p := pa; recording_error := false |};
               threads := th;
               log := lg ++ [PyAudioInit; Print MsgHotkeyError] |} =
          stop_recording e'
            {| self := {| is_recording := true; audio_frames := [];
                          stream := st; p := pa; recording_error := false |};
               threads := th;
               log := lg ++ [PyAudioInit; Print MsgHotkeyError] |}).
  { unfold on_hotkey, try_except, bind, get_self. cbn [key_eqb HOTKEY].
    world_simpl. cbn [negb].
    rewrite stop_recording_accepted by reflexivity.
    rewrite finish_recording_returns. reflexivity. }
  rewrite Hstop, stop_recording_accepted by reflexivity.
  rewrite finish_recording_spec.
  unfold after_pause. rewrite Hpause. unfold run_threads. cbn [fold_left].
  unfold check_and_transcribe, bind, get_self, emit.
  world_simpl. cbn [closed recording_error audio_frames snd].
  world_simpl.
  split; [reflexivity|].
  destruct (close_events_calls e'
              {| is_recording := false; audio_frames := []; stream := st;
                 p := pa; recording_error := false |}) as [Hc Hi].
  rewrite !engine_calls_app, !injections_app. cbn [engine_calls injections].
  rewrite ?engine_calls_app, ?injections_app, Hc, Hi, !app_nil_r.
  split; [reflexivity|]. split; [reflexivity|].
  eexists. reflexivity.
Qed.

Lemma pyaudio_failure_leaves_flag_set_witness :
  is_recording
    (self (snd (on_hotkey
                  {| pyaudio_ok := false; open_ok := true;
                     paplay_ok := fun _ => true;
                     warmup_read := fun _ => ReadOSError; pause := [];
                     close_ok := true; transcribe := fun _ => None;
                     type_ok := fun _ => true |}
                  F9 init_world))) = true.
Proof.
  refine (proj1 (pyaudio_failure_leaves_flag_set _ init_world _ _));
    reflexivity.
Defined.

(** ** Outcomes of the stop path *)

Lemma transcribe_frames_undecodable e w :
  Numpy.frombuffer (join_bytes (audio_frames (self w))) = None ->
  transcribe_frames e w = (Ret tt, with_log (Print MsgTranscriptionError) w).
Proof.
  intro Hbuf. unfold transcribe_frames, try_except, bind, get_self, raise.
  rewrite Hbuf. reflexivity.
Qed.

Lemma transcribe_frames_engine_fails e w samples :
  Numpy.frombuffer (join_bytes (audio_frames (self w))) = Some samples ->
  Numpy.lt (Numpy.mean (Numpy.abs (Numpy.normalize samples)))
           SILENCE_THRESHOLD = false ->
  transcribe e (Numpy.normalize samples) = None ->
  transcribe_frames e w =
  (Ret tt, {| self := self w; threads := threads w;
              log := log w ++ [Print MsgProcessing;
                               Transcribe (Numpy.normalize samples);
                               Print MsgTranscriptionError] |}).
Proof.
  intros Hbuf Hlt Heng.
  unfold transcribe_frames, model_transcribe, try_except, bind, get_self.
  rewrite Hbuf, Hlt. unfold emit at 1 2. cbn [fst snd]. rewrite Heng.
  unfold raise, emit, with_log. cbn [self threads log].
  rewrite <- !app_assoc. reflexivity.
Qed.

Lemma stop_log_calls e w tail :
  engine_calls
    ((log (after_pause e w)
      ++ Print MsgStopped :: close_events e (self (after_pause e w))) ++ tail)
  = engine_calls (log w) ++ engine_calls tail /\
  injections
    ((log (after_pause e w)
      ++ Print MsgStopped :: close_events e (self (after_pause e w))) ++ tail)
  = injections (log w) ++ injections tail.
Proof.
  destruct (close_events_calls e (self (after_pause e w))) as [Hc Hi].
  destruct (after_pause_silent e w) as [He Hj].
  rewrite !engine_calls_app, !injections_app. cbn [engine_calls injections].
  rewrite Hc, Hi, He, Hj, !app_nil_r. split; reflexivity.
Qed.

(** A stop-event that finds nothing buffered (and no recording error)
    reports that no audio was recorded: the device is closed, the engine and
    the injector are not called, and the controller is idle. *)
Theorem empty_buffer_reports_no_audio e w :
  is_recording (self w) = true ->
  recording_error (self (after_pause e w)) = false ->
  audio_frames (self (after_pause e w)) = [] ->
  let w' := snd (stop_recording e w) in
  fst (stop_recording e w) = Ret tt /\
  is_recording (self w') = false /\
  engine_calls (log w') = engine_calls (log w) /\
  injections (log w') = injections (log w) /\
  log w' = (log (after_pause e w)
            ++ Print MsgStopped :: close_events e (self (after_pause e w)))
           ++ [Print MsgNoAudio].
Proof.
  intros Hrec Herr Hemp w'. unfold w'.
  rewrite (stop_recording_accepted e w Hrec), finish_recording_spec.
  unfold check_and_transcribe, bind, get_self.
  cbn [self closed recording_error audio_frames]. rewrite Herr, Hemp.
  unfold emit, with_log. cbn [fst snd self log closed is_recording].
  destruct (stop_log_calls e w [Print MsgNoAudio]) as [He Hi].
  rewrite He, Hi, !app_nil_r.
  split; [reflexivity|]. split; [apply after_pause_flag|].
  repeat split.
Qed.

Lemma empty_buffer_reports_no_audio_witness :
  log (snd (stop_recording (nominal [] []) (recording [] []))) =
  [Sleep 100; Print MsgStopped; StreamStop; StreamClose; PaTerminate;
   Print MsgNoAudio].
Proof.
  refine (eq_trans (proj2 (proj2 (proj2 (proj2
    (empty_buffer_reports_no_audio (nominal [] []) (recording [] []) _ _ _)))))
    _); reflexivity.
Defined.

(** When the engine raises on a healthy, audible buffer, the error is
    reported and the session ends: the engine was called once with the
    normalised buffer, nothing is injected, and the controller is idle. *)
Theorem engine_failure_is_reported e w samples :
  is_recording (self w) = true ->
  recording_error (self (after_pause e w)) = false ->
  audio_frames (self (after_pause e w)) <> [] ->
  Numpy.frombuffer (join_bytes (audio_frames (self (after_pause e w))))
    = Some samples ->
  Numpy.lt (Numpy.mean (Numpy.abs (Numpy.normalize samples)))
           SILENCE_THRESHOLD = false ->
  transcribe e (Numpy.normalize samples) = None ->
  let w' := snd (stop_recording e w) in
  fst (stop_recording e w) = Ret tt /\
  is_recording (self w') = false /\
  engine_calls (log w') = engine_calls (log w) ++ [Numpy.normalize samples] /\
  injections (log w') = injections (log w) /\
  exists l, log w' = l ++ [Print MsgTranscriptionError].
Proof.
  intros Hrec Herr Hne Hbuf Hlt Heng w'. unfold w'.
  rewrite (stop_recording_healthy e w Hrec Herr Hne).
  rewrite (transcribe_frames_engine_fails e _ samples); auto.
  cbn [fst snd self log closed is_recording].
  destruct (stop_log_calls e w
              [Print MsgProcessing; Transcribe (Numpy.normalize samples);
               Print MsgTranscriptionError]) as [He Hi].
  rewrite He, Hi, !app_nil_r.
  split; [reflexivity|]. split; [apply after_pause_flag|].
  split; [reflexivity|]. split; [reflexivity|].
  eexists.
  change [Print MsgProcessing; Transcribe (Numpy.normalize samples);
          Print MsgTranscriptionError]
    with ([Print MsgProcessing; Transcribe (Numpy.normalize samples)]
          ++ [Print MsgTranscriptionError]).
  rewrite app_assoc. reflexivity.
Qed.

Lemma engine_failure_is_reported_witness :
  injections
    (log (snd (stop_recording
                 {| pyaudio_ok := true; open_ok := true;
                    paplay_ok := fun _ => true;
                    warmup_read := fun _ => ReadOSError; pause := [];
                    close_ok := true; transcribe := fun _ => None;
                    type_ok := fun _ => true |}
                 (recording [loud] [])))) = [].
Proof.
  refine (proj1 (proj2 (proj2 (proj2
    (engine_failure_is_reported _ (recording [loud] []) [16384; -16384]
       _ _ _ _ _ _)))));
    try reflexivity. vm_compute. discriminate.
Defined.

(** A buffer that does not hold whole 16-bit samples makes [np.frombuffer]
    raise; the handler of the transcription [try] reports it: the engine and
    the injector are not called and the controller is idle. *)
Theorem undecodable_buffer_is_reported e w :
  is_recording (self w) = true ->
  recording_error (self (after_pause e w)) = false ->
  Nat.odd (List.length (join_bytes (audio_frames (self (after_pause e w)))))
    = true ->
  let w' := snd (stop_recording e w) in
  fst (stop_recording e w) = Ret tt /\
  is_recording (self w') = false /\
  engine_calls (log w') = engine_calls (log w) /\
  injections (log w') = injections (log w) /\
  exists l, log w' = l ++ [Print MsgTranscriptionError].
Proof.
  intros Hrec Herr Hodd w'. unfold w'.
  assert (Hne : audio_frames (self (after_pause e w)) <> []).
  { intro H. rewrite H in Hodd. discriminate Hodd. }
  apply (proj1 (frombuffer_whole_samples _)) in Hodd.
  rewrite (stop_recording_healthy e w Hrec Herr Hne).
  rewrite transcribe_frames_undecodable by exact Hodd.
  cbn [fst snd with_log self log closed is_recording].
  destruct (stop_log_calls e w [Print MsgTranscriptionError]) as [He Hi].
  rewrite He, Hi, !app_nil_r.
  split; [reflexivity|]. split; [apply after_pause_flag|].
  split; [reflexivity|]. split; [reflexivity|].
  eexists. reflexivity.
Qed.

Lemma undecodable_buffer_is_reported_witness :
  engine_calls
    (log (snd (stop_recording (nominal [] []) (recording [[x00]%byte] []))))
  = [].
Proof.
  refine (proj1 (proj2 (proj2
    (undecodable_buffer_is_reported (nominal [] [])
       (recording [[x00]%byte] []) _ _ _))));
    reflexivity.
Defined.

(** When typing the text fails, the failure is reported together with the
    text itself, nothing is raised and the controller is idle; the injector
    was tried once. *)
Theorem injection_failure_surfaces_text e w samples segments :
  is_recording (self w) = true ->
  recording_error (self (after_pause e w)) = false ->
  audio_frames (self (after_pause e w)) <> [] ->
  Numpy.frombuffer (join_bytes (audio_frames (self (after_pause e w))))
    = Some samples ->
  Numpy.lt (Numpy.mean (Numpy.abs (Numpy.normalize samples)))
           SILENCE_THRESHOLD = false ->
  transcribe e (Numpy.normalize samples) = Some segments ->
  Str.nonempty (join_segments segments) = true ->
  type_ok e (join_segments segments) = false ->
  let text := join_segments segments in
  let w' := snd (stop_recording e w) in
  fst (stop_recording e w) = Ret tt /\
  is_recording (self w') = false /\
  injections (log w') = injections (log w) ++ [text] /\
  exists l, log w' = l ++ [TypeText text; Print MsgTypeError;
                           Print (MsgTextWas text)].
Proof.
  intros Hrec Herr Hne Hbuf Hlt Heng Htext Htype text w'. unfold w'.
  rewrite (stop_recording_healthy e w Hrec Herr Hne).
  rewrite (transcribe_frames_text e _ samples segments); auto.
  cbn [fst snd self log closed is_recording].
  unfold text_events, type_events. fold text. unfold text in Htext, Htype.
  fold text in Htext, Htype. rewrite Htext, Htype.
  destruct (stop_log_calls e w
    (Print MsgProcessing :: Transcribe (Numpy.normalize samples)
       :: Print (MsgTranscribed text)
       :: [Sleep 100; TypeText text]
          ++ [Print MsgTypeError; Print (MsgTextWas text)])) as [_ Hi].
  rewrite Hi.
  split; [reflexivity|]. split; [apply after_pause_flag|].
  split; [reflexivity|].
  eexists.
  change (Print MsgProcessing :: Transcribe (Numpy.normalize samples)
            :: Print (MsgTranscribed text)
            :: [Sleep 100; TypeText text]
               ++ [Print MsgTypeError; Print (MsgTextWas text)])
    with ([Print MsgProcessing; Transcribe (Numpy.normalize samples);
           Print (MsgTranscribed text); Sleep 100]
          ++ [TypeText text; Print MsgTypeError; Print (MsgTextWas text)]).
  rewrite app_assoc. reflexivity.
Qed.

Lemma injection_failure_surfaces_text_witness :
  injections
    (log (snd (stop_recording
                 {| pyaudio_ok := true; open_ok := true;
                    paplay_ok := fun _ => true;
                    warmup_read := fun _ => ReadOSError; pause := [];
                    close_ok := true;
                    transcribe := fun _ => Some ["hello"%string];
                    type_ok := fun _ => false |}
                 (recording [loud] [])))) = ["hello"%string].
Proof.
  refine (proj1 (proj2 (proj2
    (injection_failure_surfaces_text _ (recording [loud] []) [16384; -16384]
       ["hello"%string] _ _ _ _ _ _ _ _))));
    try reflexivity. vm_compute. discriminate.
Defined.

(** ** What a press of the hotkey can call *)

Lemma calls_tail w l :
  engine_calls (log w ++ l) = engine_calls (log w) ++ engine_calls l /\
  injections (log w ++ l) = injections (log w) ++ injections l.
Proof. split; [apply engine_calls_app | apply injections_app]. Qed.

Lemma transcribe_frames_calls e w :
  exists c i,
    engine_calls (log (snd (transcribe_frames e w))) = engine_calls (log w) ++ c /\
    injections (log (snd (transcribe_frames e w))) = injections (log w) ++ i /\
    (List.length i <= List.length c)%nat /\ (List.length c <= 1)%nat.
Proof.
  destruct (Numpy.frombuffer (join_bytes (audio_frames (self w))))
    as [samples|] eqn:Hbuf.
  - destruct (Numpy.lt (Numpy.mean (Numpy.abs (Numpy.normalize samples)))
                       SILENCE_THRESHOLD) eqn:Hlt.
    + rewrite (transcribe_frames_quiet e w samples Hbuf Hlt).
      exists [], []. cbn [snd with_log log].
      rewrite engine_calls_app, injections_app. cbn. auto.
    + destruct (transcribe e (Numpy.normalize samples)) as [segments|] eqn:Heng.
      * rewrite (transcribe_frames_text e w samples segments Hbuf Hlt Heng).
        cbn [snd log]. rewrite engine_calls_app, injections_app.
        unfold text_events, type_events.
        destruct (Str.nonempty (join_segments segments)).
        -- exists [Numpy.normalize samples], [join_segments segments].
           destruct (type_ok e (join_segments segments)); cbn; auto.
        -- exists [Numpy.normalize samples], []. cbn.
           rewrite app_nil_r. auto.
      * rewrite (transcribe_frames_engine_fails e w samples Hbuf Hlt Heng).
        exists [Numpy.normalize samples], []. cbn [snd log].
        rewrite engine_calls_app, injections_app. cbn.
        rewrite app_nil_r. auto.
  - rewrite (transcribe_frames_undecodable e w Hbuf).
    exists [], []. cbn [snd with_log log].
    rewrite engine_calls_app, injections_app. cbn. auto.
Qed.

Lemma start_press_calls e w :
  is_recording (self w) = false -> same calls w (snd (on_hotkey e F9 w)).
Proof.
  intro Hrec. unfold on_hotkey, try_except, bind, get_self.
  cbn [key_eqb HOTKEY]. rewrite Hrec. cbn [negb].
  rewrite (start_recording_accepted e w Hrec).
  pose proof (open_and_prime_calls e
    (with_self (fun s => set_recording_error false
                 (set_audio_frames [] (set_is_recording true s))) w)) as Hc.
  destruct (open_and_prime e _) as [[[]|ex] w1]; cbn [snd] in *; [exact Hc|].
  unfold emit, with_log. cbn [snd]. unfold same, calls in *. cbn [log].
  rewrite engine_calls_app, injections_app. cbn. rewrite !app_nil_r. exact Hc.
Qed.

Lemma stop_press e w :
  is_recording (self w) = true ->
  on_hotkey e F9 w = stop_recording e w.
Proof.
  intro Hrec. unfold on_hotkey, try_except, bind, get_self.
  cbn [key_eqb HOTKEY]. rewrite Hrec. cbn [negb].
  rewrite (stop_recording_accepted e w Hrec), finish_recording_returns.
  reflexivity.
Qed.

(** One press of a key makes at most one call to the transcription engine,
    and the injector is called at most once and only after the engine was:
    text is never typed without a transcription, and a start-event calls
    neither. *)
Theorem one_transcription_per_press e k w :
  exists c i,
    engine_calls (log (snd (on_hotkey e k w))) = engine_calls (log w) ++ c /\
    injections (log (snd (on_hotkey e k w))) = injections (log w) ++ i /\
    (List.length i <= List.length c)%nat /\ (List.length c <= 1)%nat.
Proof.
  destruct k.
  - destruct (is_recording (self w)) eqn:Hrec.
    + rewrite (stop_press e w Hrec), (stop_recording_accepted e w Hrec).
      rewrite finish_recording_spec.
      destruct (stop_log_calls e w []) as [He Hi].
      rewrite !app_nil_r in He, Hi.
      unfold check_and_transcribe, bind, get_self.
      cbn [self closed recording_error audio_frames].
      destruct (recording_error (self (after_pause e w))).
      * exists [], []. unfold emit, modify, with_self, with_log. cbn [snd log].
        rewrite engine_calls_app, injections_app, He, Hi. cbn. auto.
      * destruct (audio_frames (self (after_pause e w))).
        -- exists [], []. unfold emit, with_log. cbn [snd log].
           rewrite engine_calls_app, injections_app, He, Hi. cbn. auto.
        -- destruct (transcribe_frames_calls e
             {| self := closed e (self (after_pause e w));
                threads := threads (after_pause e w);
                log := log (after_pause e w)
                       ++ Print MsgStopped
                          :: close_events e (self (after_pause e w)) |})
             as (c & i & Hc & Hj & Hle).
           cbn [log] in Hc, Hj. rewrite He in Hc. rewrite Hi in Hj.
           exists c, i. auto.
    + destruct (same_calls_split _ _ (start_press_calls e w Hrec)) as [He Hi].
      exists [], []. rewrite He, Hi, !app_nil_r. auto.
  - exists [], []. cbn. rewrite !app_nil_r. auto.
Qed.

(** ** Invariants of the running program *)




(** ** Ctrl+C *)

(** A keyboard interrupt never leaves a session recording: if one is active
    [start] runs it through [stop_recording], which returns normally, and the
    controller is idle when [start] returns. *)
Theorem interrupt_forces_stop acts e w :
  fst (start acts (Some e) w) = [Banner; ShuttingDown] /\
  fst (snd (start acts (Some e) w)) = Ret tt /\
  is_recording (self (snd (snd (start acts (Some e) w)))) = false.
Proof.
  unfold start. cbn [fst snd]. split; [reflexivity|].
  destruct (is_recording (self (run acts w))) eqn:Hrec.
  - rewrite (stop_recording_accepted e _ Hrec), finish_recording_returns.
    cbn [fst snd]. split; [reflexivity|].
    rewrite finish_recording_flag. apply after_pause_flag.
  - split; [reflexivity | exact Hrec].
Qed.

(** ** The capture loop running alone *)

Lemma capture_at i r w t :
  nth_error (threads w) i = Some t ->
  capture i r w =
  {| self := snd (fst (_record_step r t (self w)));
     threads := set_nth i (fst (fst (_record_step r t (self w)))) (threads w);
     log := log w ++ snd (_record_step r t (self w)) |}.
Proof.
  intro H. unfold capture. rewrite H.
  destruct (_record_step r t (self w)) as [[t' s'] out]. reflexivity.
Qed.

Lemma set_nth_twice {A} (x y : A) l : forall i,
  set_nth i y (set_nth i x l) = set_nth i y l.
Proof.
  induction l as [|z l IH]; intros [|i]; simpl; try reflexivity.
  rewrite IH. reflexivity.
Qed.

(** One iteration of a running loop whose read does not end it. *)
Lemma iteration_kept i r w n m :
  nth_error (threads w) i = Some {| at_pc := AtWhile; consecutive_errors := n |} ->
  is_recording (self w) = true ->
  survives n [r] = Some m ->
  let w' := capture i r (capture i r w) in
  audio_frames (self w') = audio_frames (self w) ++ chunks_of [r] /\
  is_recording (self w') = true /\
  recording_error (self w') = recording_error (self w) /\
  nth_error (threads w') i
    = Some {| at_pc := AtWhile; consecutive_errors := m |}.
Proof.
  intros Hnth Hrec Hsurv w'. unfold w'.
  assert (H1 : capture i r w =
    {| self := self w;
       threads := set_nth i {| at_pc := InRead; consecutive_errors := n |}
                    (threads w);
       log := log w |}).
  { rewrite (capture_at i r w _ Hnth). unfold _record_step.
    cbn [at_pc consecutive_errors]. rewrite Hrec. cbn [fst snd].
    rewrite app_nil_r. reflexivity. }
  rewrite H1.
  rewrite (capture_at i r _ {| at_pc := InRead; consecutive_errors := n |})
    by (cbn [threads]; eapply nth_error_set_nth, Hnth).
  cbn [self threads log]. rewrite set_nth_twice.
  unfold _record_step. cbn [at_pc consecutive_errors].
  destruct r as [data| |]; cbn [survives chunks_of] in *.
  - inversion Hsurv; subst. cbn.
    repeat split; try assumption. eapply nth_error_set_nth, Hnth.
  - destruct (max_consecutive_errors <=? S n)%nat; [discriminate|].
    inversion Hsurv; subst. cbn. rewrite app_nil_r.
    repeat split; try assumption. eapply nth_error_set_nth, Hnth.
  - discriminate.
Qed.

(** A capture loop that runs alone keeps every chunk it reads, in the order
    read: as long as no read raises anything but [OSError] and fewer than 5
    [OSError]s come in a row, the buffer grows by exactly the chunks read,
    the session stays recording and healthy, and the loop is back at its
    [while] test with the count of the errors since the last chunk. *)
Theorem capture_keeps_chunks_in_order rs : forall w i n m,
  nth_error (threads w) i = Some {| at_pc := AtWhile; consecutive_errors := n |} ->
  is_recording (self w) = true ->
  survives n rs = Some m ->
  let w' := run_threads (iterations i rs) w in
  audio_frames (self w') = audio_frames (self w) ++ chunks_of rs /\
  is_recording (self w') = true /\
  recording_error (self w') = recording_error (self w) /\
  nth_error (threads w') i
    = Some {| at_pc := AtWhile; consecutive_errors := m |}.
Proof.
  induction rs as [|r rs IH]; intros w i n m Hnth Hrec Hsurv.
  - cbn in *. inversion Hsurv; subst. rewrite app_nil_r. auto.
  - assert (Hone : exists k, survives n [r] = Some k /\ survives k rs = Some m).
    { destruct r as [data| |]; cbn [survives] in *.
      - exists 0%nat. auto.
      - destruct (max_consecutive_errors <=? S n)%nat; [discriminate|].
        exists (S n). auto.
      - discriminate. }
    destruct Hone as (k & Hk & Hrest).
    destruct (iteration_kept i r w n k Hnth Hrec Hk) as (Hf & Hr & He & Ht).
    specialize (IH (capture i r (capture i r w)) i k m Ht Hr Hrest).
    destruct IH as (Hf' & Hr' & He' & Ht').
    change (run_threads (iterations i (r :: rs)) w)
      with (run_threads (iterations i rs) (capture i r (capture i r w))).
    cbv zeta. rewrite Hf', Hf, He', He, <- app_assoc.
    assert (Hch : chunks_of [r] ++ chunks_of rs = chunks_of (r :: rs))
      by (destruct r; reflexivity).
    rewrite Hch. auto.
Qed.

Lemma capture_keeps_chunks_in_order_witness :
  audio_frames
    (self (run_threads
             (iterations 0 [ReadOk loud; ReadOSError; ReadOSError;
                            ReadOk faint])
             (recording [] [new_thread]))) = [loud; faint].
Proof.
  refine (proj1 (capture_keeps_chunks_in_order
    [ReadOk loud; ReadOSError; ReadOSError; ReadOk faint]
    (recording [] [new_thread]) 0 0 0 _ _ _));
    reflexivity.
Defined.

(** A read that raises anything other than [OSError] ends the loop at once,
    whatever the consecutive-error count: the error flag is set, the
    controller is idle, the chunks buffered so far stay in the object, and
    the next press of the hotkey hands nothing to the engine or the injector
    and leaves the buffer empty. *)
Theorem unexpected_exception_ends_session w i t :
  nth_error (threads w) i = Some t ->
  at_pc t = InRead ->
  let w1 := capture i ReadException w in
  nth_error (threads w1) i
    = Some {| at_pc := Exited; consecutive_errors := consecutive_errors t |} /\
  recording_error (self w1) = true /\
  is_recording (self w1) = false /\
  audio_frames (self w1) = audio_frames (self w) /\
  log w1 = log w ++ [StreamRead ReadException; Print MsgUnexpected] /\
  forall sched e,
    let w2 := snd (on_hotkey e F9 (run_threads sched w1)) in
    engine_calls (log w2) = engine_calls (log w) /\
    injections (log w2) = injections (log w) /\
    audio_frames (self w2) = [].
Proof.
  intros Hnth Hpc w1.
  assert (Hw1 : w1 =
    {| self := set_is_recording false (set_recording_error true (self w));
       threads := set_nth i {| at_pc := Exited;
                               consecutive_errors := consecutive_errors t |}
                    (threads w);
       log := log w ++ [StreamRead ReadException; Print MsgUnexpected] |}).
  { unfold w1. rewrite (capture_at i _ w t Hnth).
    unfold _record_step. rewrite Hpc. reflexivity. }
  assert (Herr : recording_error (self w1) = true) by (rewrite Hw1; reflexivity).
  split; [rewrite Hw1; eapply nth_error_set_nth, Hnth|].
  split; [exact Herr|].
  split; [rewrite Hw1; reflexivity|].
  split; [rewrite Hw1; reflexivity|].
  split; [rewrite Hw1; reflexivity|].
  intros sched e w2.
  destruct (faulted_session_discarded e (run_threads sched w1)
              (run_threads_error_sticky sched w1 Herr)) as [Hc Hf].
  apply same_calls_split in Hc. destruct Hc as [He Hi].
  destruct (same_calls_split _ _ (run_threads_calls sched w1)) as [He1 Hi1].
  destruct (same_calls_split _ _ (capture_calls i ReadException w)) as [He0 Hi0].
  fold w1 in He0, Hi0. fold w2 in He, Hi, Hf.
  split; [congruence|]. split; [congruence | exact Hf].
Qed.

Lemma unexpected_exception_ends_session_witness :
  is_recording
    (self (capture 0 ReadException
             (recording [loud] [{| at_pc := InRead; consecutive_errors := 0 |}])))
  = false.
Proof.
  refine (proj1 (proj2 (proj2
    (unexpected_exception_ends_session
       (recording [loud] [{| at_pc := InRead; consecutive_errors := 0 |}])
       0 {| at_pc := InRead; consecutive_errors := 0 |} _ _))));
    reflexivity.
Defined.

(** A fault that ends the capture loop during the pause of [stop_recording]
    is honoured: the stop path finds the error flag set, reports it and
    empties the buffer; nothing is transcribed or typed.  The flag stays set
    until the next start-event. *)
Theorem fault_during_pause_discards e w i t :
  is_recording (self w) = true ->
  nth_error (threads w) i = Some t ->
  at_pc t = InRead ->
  (max_consecutive_errors <= S (consecutive_errors t))%nat ->
  pause e = [(i, ReadOSError)] ->
  let w' := snd (stop_recording e w) in
  fst (stop_recording e w) = Ret tt /\
  audio_frames (self w') = [] /\
  recording_error (self w') = true /\
  is_recording (self w') = false /\
  engine_calls (log w') = engine_calls (log w) /\
  injections (log w') = injections (log w) /\
  exists l, log w' = l ++ [Print MsgRecordingErrors].
Proof.
  intros Hrec Hnth Hpc Hmax Hpause w'. unfold w'.
  assert (Herr : recording_error (self (after_pause e w)) = true).
  { unfold after_pause. rewrite Hpause. unfold run_threads. cbn [fold_left fst snd].
    erewrite capture_at by (cbn [with_log with_self threads]; exact Hnth).
    unfold _record_step. rewrite Hpc. apply Nat.leb_le in Hmax. rewrite Hmax.
    reflexivity. }
  rewrite (stop_recording_accepted e w Hrec), finish_recording_spec.
  unfold check_and_transcribe, bind, get_self.
  cbn [self closed recording_error]. rewrite Herr.
  unfold emit, modify, with_self, with_log.
  cbn [fst snd self log set_audio_frames audio_frames recording_error
       is_recording closed].
  destruct (stop_log_calls e w [Print MsgRecordingErrors]) as [He Hi].
  rewrite He, Hi, !app_nil_r.
  split; [reflexivity|]. split; [reflexivity|]. split; [exact Herr|].
  split; [apply after_pause_flag|].
  split; [reflexivity|]. split; [reflexivity|].
  eexists. reflexivity.
Qed.

Lemma fault_during_pause_discards_witness :
  audio_frames
    (self (snd (stop_recording (nominal ["hello"%string] [(0%nat, ReadOSError)])
                  (recording [loud]
                     [{| at_pc := InRead; consecutive_errors := 4 |}])))) = [].
Proof.
  refine (proj1 (proj2
    (fault_during_pause_discards
       (nominal ["hello"%string] [(0%nat, ReadOSError)])
       (recording [loud] [{| at_pc := InRead; consecutive_errors := 4 |}])
       0 {| at_pc := InRead; consecutive_errors := 4 |} _ _ _ _ _)));
    reflexivity.
Defined.
